(** * Matchmaking service of the dating-app backend

    A shallow embedding of [src/backend/server.js] and of the two mongoose
    schemas [src/backend/modules/user.js] and [src/backend/modules/match.js].

    - Documents are records, the [users] collection is a finite map from
      ObjectId to [User], the [matches] collection is a list: two records
      for one pair of users are two entries.
    - Every [await] on a mongoose call is one round trip to the persistence
      layer; a round trip either answers or rejects.  Route handlers are
      computations in a state-and-exception monad over the [World]; a
      handler whose promise rejects has written no response.
    - [doc.save()] validates the loaded document against the schema (the
      enums of [genre] and [preference]) and writes the path the handler
      modified; [findByIdAndUpdate] runs no validator.
    - A [targetId] is any JSON value: the handler reads it through its
      truthiness, through [ObjectId.equals] and through mongoose's cast of
      the argument of [findById].  The body of PUT /api/users/me is any
      update document: plain fields, update operators, or a document
      mongoose cannot cast.  Relation arrays hold ObjectIds only.
    - [String.prototype.toLowerCase] and [new Date] belong to the JavaScript
      runtime and are parameters of the development.
    - Requests are served one at a time: [after] runs a handler to its end
      before the next request is admitted.  Handlers of overlapping requests
      interleave at their awaits; no statement below speaks about them.
    - bcrypt, jsonwebtoken, multer and the HTTP framework are external
      collaborators and appear only through their results; POST /api/login
      is stated over what mongoose looks up and what bcrypt answers. *)

From stdpp Require Import gmap strings list fin_maps sorting.

Local Open Scope string_scope.
Local Open Scope list_scope.
Local Open Scope nat_scope.

(** ** Data model *)

(** ObjectIds are opaque unique identifiers; timestamps are [Date.now()]
    readings; a [Date] is its time value, in milliseconds since the epoch. *)
Abbreviation ObjectId := nat (only parsing).
Abbreviation Timestamp := nat (only parsing).
Abbreviation Date := Z (only parsing).

(** [modules/user.js].  The key of the document in the collection is its
    [_id].  Fields the handlers test for presence are options ([None] is
    JavaScript's [undefined]/[null]). *)
Record User := mkUser {
  firstName : string;
  lastName : string;
  genre : string;
  email : string;
  password : string;
  dob : Date;
  preference : option string;
  interests : list string;
  avatar : option string;
  liked : option (list ObjectId);
  likedBy : option (list ObjectId)
}.

(** [modules/match.js]. *)
Record Match := mkMatch {
  m_id : ObjectId;
  userA : ObjectId;
  userB : ObjectId;
  createdAt : Timestamp
}.

Record Db := mkDb {
  users : gmap nat User;
  matches : list Match;
  next_oid : ObjectId
}.

(** The persistence layer is reached over a connection that may drop:
    [outages] lists, for the coming round trips, whether each one rejects.
    An exhausted schedule means the layer answers from then on. *)
Record World := mkWorld {
  db : Db;
  outages : list bool
}.

Definition set_liked (l : option (list ObjectId)) (u : User) : User :=
  mkUser (firstName u) (lastName u) (genre u) (email u) (password u) (dob u)
         (preference u) (interests u) (avatar u) l (likedBy u).

Definition set_likedBy (l : option (list ObjectId)) (u : User) : User :=
  mkUser (firstName u) (lastName u) (genre u) (email u) (password u) (dob u)
         (preference u) (interests u) (avatar u) (liked u) l.

Definition set_users (us : gmap nat User) (d : Db) : Db :=
  mkDb us (matches d) (next_oid d).

Definition empty_db : Db := mkDb ∅ [] 0.

(** ** The JavaScript runtime *)

(** [toLowerCase] is [String.prototype.toLowerCase], which the schema's
    [lowercase: true] applies to [email]; [new_Date s] is [new Date(s)],
    [None] for an Invalid Date. *)
Class Runtime := {
  toLowerCase : string → string;
  new_Date : string → option Date
}.

(** ** Exceptions and the handler monad *)

Inductive Exn :=
  | MongoError        (* the persistence layer rejected the round trip *)
  | DuplicateKey      (* E11000 on the unique index of [email] *)
  | ValidationError   (* schema validation of [User.create] and [doc.save] *)
  | CastError         (* a value mongoose cannot cast to the type of its path *)
  | DocumentNotFound  (* [doc.save] of a document that is gone *)
  | TypeError.        (* property access on [null] *)

Inductive Completion (A : Type) :=
  | Normal (a : A)
  | Abrupt (e : Exn).
Arguments Normal {A} a.
Arguments Abrupt {A} e.

Definition M (A : Type) : Type := World → Completion A * World.

Definition ret {A} (a : A) : M A := λ w, (Normal a, w).

Definition throw {A} (e : Exn) : M A := λ w, (Abrupt e, w).

(** Sequencing of awaits: a rejection skips the rest, effects so far stay.
    The instance gives the handlers stdpp's [x ← m; k] and [m ;; k]. *)
Definition bind {A B} (k : A → M B) (m : M A) : M B := λ w,
  match m w with
  | (Normal a, w') => k a w'
  | (Abrupt e, w') => (Abrupt e, w')
  end.

#[export] Instance M_bind : MBind M := @bind.

(** [try { m } catch (err) { h err }] *)
Definition try_catch {A} (m : M A) (h : Exn → M A) : M A := λ w,
  match m w with
  | (Normal a, w') => (Normal a, w')
  | (Abrupt e, w') => h e w'
  end.

Definition get_db : M Db := λ w, (Normal (db w), w).

Definition put_db (d : Db) : M unit := λ w, (Normal (), mkWorld d (outages w)).

(** One round trip: consumes the head of the outage schedule. *)
Definition round_trip : M unit := λ w,
  match outages w with
  | [] => (Normal (), w)
  | false :: rest => (Normal (), mkWorld (db w) rest)
  | true :: rest => (Abrupt MongoError, mkWorld (db w) rest)
  end.

(** Property access on a possibly-null document ([me._id] on [null]
    throws a TypeError). *)
Definition deref {A} (o : option A) : M A :=
  match o with
  | Some a => ret a
  | None => throw TypeError
  end.

(** ** Persistence operations (mongoose) *)

(** [id.toString() === x.toString()] over an array of ObjectIds:
    [arr.find(id => id.toString() === x.toString())] is truthy exactly
    when [x] occurs in [arr]. *)
Definition has_id (arr : list ObjectId) (x : ObjectId) : bool :=
  bool_decide (x ∈ arr).

Definition User_findById (id : ObjectId) : M (option User) :=
  round_trip ;;
  d ← get_db;
  ret (users d !! id).

(** Schema enums of [genre] and [preference], [user.js] lines 6 and 10. *)
Definition genre_enum : list string := ["male"; "female"].
Definition preference_enum : list string := ["male"; "female"; "all"].

(** Schema validation of a document: the two enum validators; an absent
    value passes.  The other paths carry no validator. *)
Definition validates (doc : User) : bool :=
  bool_decide (genre doc ∈ genre_enum) &&
  match preference doc with
  | Some p => bool_decide (p ∈ preference_enum)
  | None => true
  end.

Arguments validates : simpl never.

(** The paths the like handler modifies before it saves. *)
Inductive Path := liked_path | likedBy_path.

Definition write_path (p : Path) (doc stored : User) : User :=
  match p with
  | liked_path => set_liked (liked doc) stored
  | likedBy_path => set_likedBy (likedBy doc) stored
  end.

Definition store_path (id : ObjectId) (p : Path) (doc : User) (d : Db) : Db :=
  set_users (alter (write_path p doc) id (users d)) d.

(** [doc.save()] of a document loaded under [id] with one path modified:
    the whole document is validated first, without a round trip; then the
    modified path is written to the stored document. *)
Definition User_save (id : ObjectId) (doc : User) (modified : Path) : M unit :=
  if validates doc then
    round_trip ;;
    d ← get_db;
    match users d !! id with
    | Some _ => put_db (store_path id modified doc d)
    | None => throw DocumentNotFound
    end
  else throw ValidationError.

(** [{ $or: [{userA: a, userB: b}, {userA: b, userB: a}] }] *)
Definition pairs (a b : ObjectId) (m : Match) : bool :=
  bool_decide (userA m = a ∧ userB m = b) || bool_decide (userA m = b ∧ userB m = a).

(** [{ $or: [{userA: u}, {userB: u}] }] *)
Definition involves (u : ObjectId) (m : Match) : bool :=
  bool_decide (userA m = u) || bool_decide (userB m = u).

Definition Match_findOne (q : Match → bool) : M (option Match) :=
  round_trip ;;
  d ← get_db;
  ret (List.find q (matches d)).

(** [Match.create({userA, userB})]: the schema default fills [createdAt]
    with [Date.now()], here the reading [now]. *)
Definition Match_create (a b : ObjectId) (now : Timestamp) : M Match :=
  round_trip ;;
  d ← get_db;
  let m := mkMatch (next_oid d) a b now in
  put_db (mkDb (users d) (matches d ++ [m]) (S (next_oid d))) ;;
  ret m.

(** ** Responses *)

(** [select('-password -liked -likedBy')] *)
Record PublicUser := mkPublicUser {
  pu_id : ObjectId;
  pu_firstName : string;
  pu_lastName : string;
  pu_genre : string;
  pu_email : string;
  pu_dob : Date;
  pu_preference : option string;
  pu_interests : list string;
  pu_avatar : option string
}.

(** [select('-password')] *)
Record SelfUser := mkSelfUser {
  su_public : PublicUser;
  su_liked : option (list ObjectId);
  su_likedBy : option (list ObjectId)
}.

(** [populate(path, 'firstName lastName avatar')] *)
Record Profile := mkProfile {
  pr_id : ObjectId;
  pr_firstName : string;
  pr_lastName : string;
  pr_avatar : option string
}.

Record PopulatedMatch := mkPopulatedMatch {
  pm_id : ObjectId;
  pm_userA : option Profile;
  pm_userB : option Profile;
  pm_createdAt : Timestamp
}.

Inductive Body :=
  | Message (message : string)
  | MessageMatch (message : string) (match_ : Match)
  | TokenUser (token : ObjectId) (uid : ObjectId) (first : string) (av : option string)
  | SelfBody (u : option SelfUser)
  | UsersBody (us : list PublicUser)
  | MatchesBody (ms : list PopulatedMatch).

Record Response := mkResponse {
  status : nat;
  body : Body
}.

(** [res.json(b)] and [res.status(c).json(b)] *)
Definition json (b : Body) : Response := mkResponse 200 b.
Definition status_json (c : nat) (b : Body) : Response := mkResponse c b.

(** ** POST /api/like *)

(** [if (!me.liked) me.liked = []] and [if (!target.likedBy) ...]: the
    array a relation field stands for. *)
Definition likes (u : User) : list ObjectId := default [] (liked u).
Definition likers (u : User) : list ObjectId := default [] (likedBy u).

(** [target.liked && target.liked.find(id => id.toString() === me._id.toString())],
    line 225. *)
Definition mutual (req_user : ObjectId) (target : User) : bool :=
  match liked target with
  | Some l => has_id l req_user
  | None => false
  end.

(** Lines 207-241: both documents are loaded, [tid] is [target._id];
    record the like, then look for mutuality and for an existing Match. *)
Definition like_record (now : Timestamp) (req_user tid : ObjectId)
    (me target : User) : M Response :=
  (if has_id (likes me) tid then ret ()
   else User_save req_user (set_liked (Some (likes me ++ [tid])) me) liked_path) ;;
  (if has_id (likers target) req_user then ret ()
   else User_save tid (set_likedBy (Some (likers target ++ [req_user])) target)
                  likedBy_path) ;;
  if mutual req_user target then
    exists_ ← Match_findOne (pairs req_user tid);
    match exists_ with
    | None =>
      m ← Match_create req_user tid now;
      ret (json (MessageMatch "It's a match!" m))
    | Some _ => ret (json (Message "Liked"))
    end
  else ret (json (Message "Liked")).

(** The [targetId] field of the request body, a JSON value, by what the
    handler's three uses of it make of it. *)
Inductive TargetId :=
  | NoTarget                        (* absent, null, or another falsy value *)
  | IdString (id : ObjectId)        (* the string form of the ObjectId [id] *)
  | IdFilter (sel : ObjectId → bool)
      (* an object mongoose reads as a condition on [_id], such as
         {"$in": [...]}, {"$ne": null} or {"_id": "..."} *)
  | NotAnId.                        (* any other value, such as "abc" *)

(** [!targetId], line 193. *)
Definition falsy (t : TargetId) : bool :=
  match t with
  | NoTarget => true
  | _ => false
  end.

(** [me._id.equals(targetId)], line 197: true for the string form of the
    same ObjectId, false for every other value. *)
Definition equals (id : ObjectId) (t : TargetId) : bool :=
  match t with
  | IdString id' => bool_decide (id = id')
  | _ => false
  end.

(** The document [User.findById(t)] answers on database [d], once [t] is
    cast: a condition answers the first document in scan order that meets
    it. *)
Definition found (d : Db) (t : TargetId) : option (ObjectId * User) :=
  match t with
  | IdString id => (λ u, (id, u)) <$> users d !! id
  | IdFilter sel => List.find (λ kv : nat * User, sel kv.1) (map_to_list (users d))
  | NoTarget | NotAnId => None
  end.

(** [User.findById(targetId)], line 201: the argument is cast first, and a
    failed cast rejects without a round trip. *)
Definition User_findById_value (t : TargetId) : M (option (ObjectId * User)) :=
  match t with
  | NotAnId => throw CastError
  | _ =>
    round_trip ;;
    d ← get_db;
    ret (found d t)
  end.

(** The body of the [try] block, lines 190-241.  [req_user] is
    [req.user._id]. *)
Definition like_try (now : Timestamp) (req_user : ObjectId)
    (targetId : TargetId) : M Response :=
  me ← User_findById req_user;
  if falsy targetId then ret (status_json 400 (Message "targetId required"))
  else
    me ← deref me;
    if equals req_user targetId
    then ret (status_json 400 (Message "Cannot like yourself"))
    else
      target ← User_findById_value targetId;
      match target with
      | None => ret (status_json 404 (Message "User not found"))
      | Some (tid, target) => like_record now req_user tid me target
      end.

Definition server_error : Response := status_json 500 (Message "Server error").

Definition post_like (now : Timestamp) (req_user : ObjectId)
    (targetId : TargetId) : M Response :=
  try_catch (like_try now req_user targetId) (λ _, ret server_error).

(** ** The auth middleware *)

(** What [jwt.verify] makes of the Authorization header: no header, a
    token that does not verify, or a token whose payload carries an id. *)
Inductive Authorization :=
  | NoHeader
  | BadToken
  | Bearer (payload_id : ObjectId).

(** The [auth] middleware, lines 57-79: either it answers 401 itself or it
    hands [req.user._id] to the route handler.  Its [try] covers the token
    check and the lookup, not the handler behind [next()]. *)
Definition auth (a : Authorization) : M (Response + ObjectId) :=
  match a with
  | NoHeader => ret (inl (status_json 401 (Message "No token")))
  | BadToken => ret (inl (status_json 401 (Message "Invalid token")))
  | Bearer id =>
    try_catch
      (user ← User_findById id;
       match user with
       | None => ret (inl (status_json 401 (Message "User not found")))
       | Some _ => ret (inr id)
       end)
      (λ _, ret (inl (status_json 401 (Message "Invalid token"))))
  end.

(** [app.METHOD(path, auth, handler)] *)
Definition route (a : Authorization) (handler : ObjectId → M Response) : M Response :=
  r ← auth a;
  match r with
  | inl resp => ret resp
  | inr req_user => handler req_user
  end.

(** ** Request bodies *)

(** JavaScript truthiness of an optional string field. *)
Definition truthy (o : option string) : bool :=
  match o with
  | Some s => negb (bool_decide (s = ""))
  | None => false
  end.

(** [bcrypt.hash(password, 10)] is outside this development; a tagged copy
    of the password stands for the stored hash. *)
Definition bcrypt_hash (pw : string) : string := "$2b$10$" +:+ pw.

Record RegisterBody := mkRegisterBody {
  rb_firstName : option string;
  rb_lastName : option string;
  rb_genre : option string;
  rb_email : option string;
  rb_password : option string;
  rb_dob : option string;
  rb_preference : option string
}.

(** Plain fields in the body of PUT /api/users/me: any subset of the
    schema's paths, each with the value to set, as mongoose casts it to the
    type of its path. *)
Record Updates := mkUpdates {
  up_firstName : option string;
  up_lastName : option string;
  up_genre : option string;
  up_email : option string;
  up_password : option string;
  up_dob : option Date;
  up_preference : option (option string);
  up_interests : option (list string);
  up_avatar : option (option string);
  up_liked : option (option (list ObjectId));
  up_likedBy : option (option (list ObjectId))
}.

Definition no_updates : Updates :=
  mkUpdates None None None None None None None None None None None.

(** The body of PUT /api/users/me, which the handler passes on as it
    comes: plain fields; any other update document (update operators such
    as $push, $addToSet, $pull and $unset, dotted paths), given by the
    document the persistence layer makes of the stored one; or a document
    with a value mongoose cannot cast. *)
Inductive UpdateBody :=
  | Fields (ups : Updates)
  | Operators (f : User → User)
  | Uncastable.

Inductive Request :=
  | Register (b : RegisterBody) (file : option string)
  | GetSelf (a : Authorization)
  | UpdateProfile (a : Authorization) (updates : UpdateBody)
  | ListCandidates (a : Authorization)
  | ListAll (a : Authorization)
  | RecordLike (a : Authorization) (now : Timestamp) (targetId : TargetId)
  | ListMatches (a : Authorization).

(** ** GET /api/users/me *)

Definition select_public (id : ObjectId) (u : User) : PublicUser :=
  mkPublicUser id (firstName u) (lastName u) (genre u) (email u) (dob u)
               (preference u) (interests u) (avatar u).

Definition select_self (id : ObjectId) (u : User) : SelfUser :=
  mkSelfUser (select_public id u) (liked u) (likedBy u).

(** [res.json(req.user)]: the document the middleware loaded. *)
Definition get_users_me (req_user : ObjectId) : M Response :=
  d ← get_db;
  ret (json (SelfBody (select_self req_user <$> users d !! req_user))).

(** ** GET /api/users and GET /api/users/all *)

(** [{ _id: { $nin: excluded }, genre: g }], the second conjunct only when
    the handler sets it. *)
Record UserQuery := mkUserQuery {
  q_nin : list ObjectId;
  q_genre : option string
}.

Definition query_sat (q : UserQuery) (kv : nat * User) : Prop :=
  (kv.1 ∉ q_nin q) ∧
  match q_genre q with
  | Some g => genre kv.2 = g
  | None => True
  end.

#[export] Instance query_sat_dec q kv : Decision (query_sat q kv).
Proof. unfold query_sat. destruct (q_genre q); apply _. Defined.

(** [User.find(q).limit(n)]: the first [n] hits in the collection's scan
    order, here the enumeration order of the map. *)
Definition User_find (q : UserQuery) (n : nat) : M (list (nat * User)) :=
  round_trip ;;
  d ← get_db;
  ret (take n (filter (query_sat q) (map_to_list (users d)))).

(** Lines 177-180: the genre conjunct of the candidates query. *)
Definition genre_filter (me : User) : option string :=
  if truthy (preference me) && negb (bool_decide (preference me = Some "all"))
  then preference me
  else None.

(** [[me._id, ...(me.liked || [])]], line 170. *)
Definition excluded_ids (req_user : ObjectId) (me : User) : list ObjectId :=
  req_user :: likes me.

(** Lines 168-185: no [try]. *)
Definition get_users (req_user : ObjectId) : M Response :=
  me ← User_findById req_user;
  me ← deref me;
  let query := mkUserQuery (excluded_ids req_user me) (genre_filter me) in
  candidates ← User_find query 50;
  ret (json (UsersBody ((λ kv, select_public kv.1 kv.2) <$> candidates))).

(** Lines 259-269. *)
Definition get_users_all (req_user : ObjectId) : M Response :=
  try_catch
    (found ← User_find (mkUserQuery [req_user] None) 50;
     ret (json (UsersBody ((λ kv, select_public kv.1 kv.2) <$> found))))
    (λ _, ret server_error).

(** ** GET /api/matches *)

(** [sort({ createdAt: -1 })] *)
Definition newest_first (m1 m2 : Match) : Prop := createdAt m2 ≤ createdAt m1.

#[export] Instance newest_first_dec m1 m2 : Decision (newest_first m1 m2).
Proof. unfold newest_first. apply _. Defined.

(** [Match.find(q).sort({ createdAt: -1 })] *)
Definition Match_find_sorted (q : Match → bool) : M (list Match) :=
  round_trip ;;
  d ← get_db;
  ret (merge_sort newest_first (filter (λ m, q m = true) (matches d))).

Definition profile_of (d : Db) (id : ObjectId) : option Profile :=
  (λ u, mkProfile id (firstName u) (lastName u) (avatar u)) <$> users d !! id.

Definition populated (d : Db) (m : Match) : PopulatedMatch :=
  mkPopulatedMatch (m_id m) (profile_of d (userA m)) (profile_of d (userB m))
                   (createdAt m).

(** The two [populate] calls: one more round trip per path. *)
Definition populate_both (ms : list Match) : M (list PopulatedMatch) :=
  round_trip ;;
  round_trip ;;
  d ← get_db;
  ret (populated d <$> ms).

(** Lines 249-256: no [try]. *)
Definition get_matches (req_user : ObjectId) : M Response :=
  found ← Match_find_sorted (involves req_user);
  ms ← populate_both found;
  ret (json (MatchesBody ms)).

(** ** POST /api/login *)

Section Login.
(** Two answers of the libraries the handler calls: the value mongoose
    looks up for the [email] of the filter, and [bcrypt.compare]. *)
Variable cast_filter : string → string.
Variable bcrypt_compare : string → string → bool.

(** [User.findOne({ email })]: the first document in scan order. *)
Definition User_findOne_email (e : string) : M (option (nat * User)) :=
  round_trip ;;
  d ← get_db;
  ret (List.find (λ kv : nat * User, bool_decide (email kv.2 = cast_filter e))
                 (map_to_list (users d))).

(** The body of the [try] block, lines 125-147. *)
Definition login_try (mail pw : string) : M Response :=
  user ← User_findOne_email mail;
  match user with
  | None => ret (status_json 400 (Message "Invalid credentials"))
  | Some (id, u) =>
    if bcrypt_compare pw (password u)
    then ret (json (TokenUser id id (firstName u) (avatar u)))
    else ret (status_json 400 (Message "Invalid credentials"))
  end.

Definition post_login (mail pw : string) : M Response :=
  try_catch (login_try mail pw) (λ _, ret server_error).
End Login.

(** ** State predicates *)

(** The invariant of the data model on one user record. *)
Definition relations_ok (id : ObjectId) (u : User) : Prop :=
  (id ∉ likes u) ∧ NoDup (likes u) ∧ (id ∉ likers u) ∧ NoDup (likers u).

#[export] Instance relations_ok_dec id u : Decision (relations_ok id u).
Proof. unfold relations_ok. apply _. Defined.

Definition users_ok (d : Db) : Prop :=
  ∀ id u, users d !! id = Some u → relations_ok id u.

(** Plain fields that assign a relation array assign a well-formed one. *)
Definition relations_clean (id : ObjectId) (ups : Updates) : Prop :=
  (∀ l, up_liked ups = Some (Some l) → (id ∉ l) ∧ NoDup l) ∧
  (∀ l, up_likedBy ups = Some (Some l) → (id ∉ l) ∧ NoDup l).

(** A like whose [targetId] is a condition that the requester's own id
    meets can find the requester's own document, past line 197. *)
Definition no_self_target (rq : Request) : Prop :=
  match rq with
  | RecordLike (Bearer id) _ (IdFilter sel) => sel id = false
  | _ => True
  end.

(** Requests that write no ill-formed relation array: an update leaves the
    arrays of a well-formed record well formed, and a like does not target
    the requester. *)
Definition clean_request (rq : Request) : Prop :=
  match rq with
  | UpdateProfile (Bearer id) (Fields ups) => relations_clean id ups
  | UpdateProfile (Bearer id) (Operators f) =>
      ∀ u, relations_ok id u → relations_ok id (f u)
  | _ => no_self_target rq
  end.

(** A Match record for the unordered pair. *)
Definition paired (d : Db) (a b : ObjectId) : Prop :=
  ∃ m, m ∈ matches d ∧ pairs a b m = true.

#[export] Instance paired_dec d a b : Decision (paired d a b).
Proof.
  refine (cast_if (decide (Exists (λ m, pairs a b m = true) (matches d))));
    unfold paired; rewrite Exists_exists in *; naive_solver.
Defined.

(** Number of Match records for the unordered pair. *)
Definition match_count (d : Db) (a b : ObjectId) : nat :=
  length (filter (λ m, pairs a b m = true) (matches d)).

(** Number of occurrences of an id in a relation array. *)
Definition occurrences (x : ObjectId) (l : list ObjectId) : nat :=
  length (filter (λ y, y = x) l).

(** Every stored document passes schema validation. *)
Definition schema_ok (d : Db) : Prop :=
  ∀ id u, users d !! id = Some u → validates u = true.

(** The validation answers of POST /api/like. *)
Definition InvalidInput : Response := status_json 400 (Message "targetId required").
Definition SelfLikeRejected : Response := status_json 400 (Message "Cannot like yourself").
Definition NotFound : Response := status_json 404 (Message "User not found").
Definition Liked : Response := json (Message "Liked").
Definition MatchFormed (m : Match) : Response := json (MessageMatch "It's a match!" m).

(** ** A weakest-precondition reading of handlers

    [wp m Q E d]: started on database [d], under every outage schedule,
    [m] either completes with a value and a database satisfying [Q] or
    rejects leaving a database satisfying [E]. *)
Definition wp {A} (m : M A) (Q : A → Db → Prop) (E : Db → Prop) (d : Db) : Prop :=
  ∀ o, match m (mkWorld d o) with
       | (Normal a, w') => Q a (db w')
       | (Abrupt _, w') => E (db w')
       end.

(** ** The like handler under a responsive persistence layer *)

(** The database after lines 207-214. *)
Definition half_recorded (A B : ObjectId) (me : User) (d : Db) : Db :=
  if has_id (likes me) B then d
  else store_path A liked_path (set_liked (Some (likes me ++ [B])) me) d.

(** The database after lines 207-223. *)
Definition recorded (A B : ObjectId) (me target : User) (d : Db) : Db :=
  let d1 := half_recorded A B me d in
  if has_id (likers target) A then d1
  else store_path B likedBy_path (set_likedBy (Some (likers target ++ [A])) target) d1.

Definition quiet (d : Db) : World := mkWorld d [].

(** ** Listings *)

(** The ids and genres a users listing answers with. *)
Definition listed (c : Completion Response) : option (list (ObjectId * string)) :=
  match c with
  | Normal (mkResponse 200 (UsersBody us)) => Some ((λ u, (pu_id u, pu_genre u)) <$> us)
  | _ => None
  end.

(** The candidates of a requester, as documents: everyone outside the
    exclusion list, of the given genre when there is one, cut at 50. *)
Definition candidates_of (d : Db) (excluded : list ObjectId) (g : option string)
    : list (nat * User) :=
  take 50 (filter (query_sat (mkUserQuery excluded g)) (map_to_list (users d))).

Definition newest_first_populated (p1 p2 : PopulatedMatch) : Prop :=
  pm_createdAt p2 ≤ pm_createdAt p1.

(** The creation times a matches listing answers with, in order. *)
Definition listed_times (c : Completion Response) : option (list Timestamp) :=
  match c with
  | Normal (mkResponse 200 (MatchesBody ms)) => Some (pm_createdAt <$> ms)
  | _ => None
  end.

(** ** Requests and their credentials *)

(** The Authorization header of a request to a route behind [auth]. *)
Definition authorization (rq : Request) : option Authorization :=
  match rq with
  | Register _ _ => None
  | GetSelf a | UpdateProfile a _ | ListCandidates a | ListAll a
  | RecordLike a _ _ | ListMatches a => Some a
  end.

Definition is_listing (rq : Request) : bool :=
  match rq with
  | GetSelf _ | ListCandidates _ | ListAll _ | ListMatches _ => true
  | _ => false
  end.

(** Line 86: every field of the registration body is there and non-empty. *)
Definition complete (b : RegisterBody) : bool :=
  truthy (rb_firstName b) && truthy (rb_lastName b) && truthy (rb_genre b) &&
  truthy (rb_email b) && truthy (rb_password b) && truthy (rb_dob b) &&
  truthy (rb_preference b).

Definition MissingFields : Response := status_json 400 (Message "Missing fields").
Definition InvalidCredentials : Response :=
  status_json 400 (Message "Invalid credentials").

(** ** Invariants of the collections *)

(** No write removes a document: users stay, Match records stay as and
    where they are. *)
Definition grows (d d' : Db) : Prop :=
  (∀ id, is_Some (users d !! id) → is_Some (users d' !! id)) ∧
  matches d `prefix_of` matches d'.

(** Every Match record pairs two distinct stored users, and no pair has
    two records. *)
Definition matches_ok (d : Db) : Prop :=
  (∀ m, m ∈ matches d →
     userA m ≠ userB m ∧
     is_Some (users d !! userA m) ∧ is_Some (users d !! userB m)) ∧
  (∀ a b, match_count d a b ≤ 1).

(** Stored emails are keys. *)
Definition emails_unique (d : Db) : Prop :=
  ∀ i j ui uj, users d !! i = Some ui → users d !! j = Some uj →
               email ui = email uj → i = j.

(** ** What a like can leave behind, whatever the persistence layer does *)

(** The users [User.findById(t)] can answer requester [A] with, past the
    check of line 197, whatever the scan order. *)
Definition finds (A : ObjectId) (t : TargetId) (B : ObjectId) : Prop :=
  match t with
  | IdString id => B = id ∧ A ≠ B
  | IdFilter sel => sel B = true
  | _ => False
  end.

(** The databases POST /api/like from [A] with body field [t] can end on:
    the one it started on, the one with the requester's like saved, the
    one with both saves done, and the latter with a new Match record. *)
Inductive like_effect (now : Timestamp) (A : ObjectId) (t : TargetId)
    (d : Db) : Db → Prop :=
  | le_none : like_effect now A t d d
  | le_half B ua ub :
      finds A t B → users d !! A = Some ua → users d !! B = Some ub →
      like_effect now A t d (half_recorded A B ua d)
  | le_recorded B ua ub :
      finds A t B → users d !! A = Some ua → users d !! B = Some ub →
      like_effect now A t d (recorded A B ua ub d)
  | le_match B ua ub :
      finds A t B → users d !! A = Some ua → users d !! B = Some ub →
      A ∈ likes ub → ¬ paired d A B →
      like_effect now A t d
        (mkDb (users (recorded A B ua ub d))
              (matches d ++ [mkMatch (next_oid d) A B now])
              (S (next_oid d))).

(** ** Normal operation: what a request can do to a database of valid
    documents when the persistence layer is responsive *)

Inductive effect (d : Db) : Db → Prop :=
  | eff_none : effect d d
  | eff_register doc :
      likes doc = [] → likers doc = [] → validates doc = true →
      effect d (mkDb (<[next_oid d := doc]> (users d)) (matches d) (S (next_oid d)))
  | eff_update id u u' :
      users d !! id = Some u → likes u' = likes u → likers u' = likers u →
      validates u' = true →
      effect d (set_users (<[id := u']> (users d)) d)
  | eff_like A B ua ub :
      A ≠ B → users d !! A = Some ua → users d !! B = Some ub →
      effect d (recorded A B ua ub d)
  | eff_match A B ua ub now :
      A ≠ B → users d !! A = Some ua → users d !! B = Some ub → A ∈ likes ub →
      effect d (mkDb (users (recorded A B ua ub d))
                     (matches d ++ [mkMatch (next_oid d) A B now])
                     (S (next_oid d))).

(** Ids are below the id counter, every document passes schema
    validation, every like has its mirror entry, and a Match record stands
    for likes in both directions. *)
Definition consistent (d : Db) : Prop :=
  (∀ id, is_Some (users d !! id) → id < next_oid d) ∧
  schema_ok d ∧
  (∀ a b ua, users d !! a = Some ua → b ∈ likes ua →
     ∃ ub, users d !! b = Some ub ∧ a ∈ likers ub) ∧
  (∀ m, m ∈ matches d →
     ∃ ua ub, users d !! userA m = Some ua ∧ users d !! userB m = Some ub ∧
              userB m ∈ likes ua ∧ userA m ∈ likes ub).

Definition email_taken (d : Db) (self : option ObjectId) (e : string) : bool :=
  bool_decide (Exists (λ kv : nat * User, Some kv.1 ≠ self ∧ email kv.2 = e)
                      (map_to_list (users d))).

(** ** The handlers that depend on the runtime, and the service *)

Section Service.
Context {runtime : Runtime}.

(** ** POST /api/register *)

(** [User.create(userData)]: schema validation (the date, which must not
    be an Invalid Date, and the enums), then the insert, which the unique
    index on [email] may refuse.  Array paths default to []. *)
Definition User_create (first last g mail hashed : string) (date : option Date)
    (pref : option string) (av : option string) : M ObjectId :=
  match date with
  | None => throw ValidationError
  | Some date =>
    let doc := mkUser first last g (toLowerCase mail) hashed date
                      (Some (default "all" pref)) [] av (Some []) (Some []) in
    if validates doc then
      round_trip ;;
      d ← get_db;
      if email_taken d None (email doc) then throw DuplicateKey
      else
        let id := next_oid d in
        put_db (mkDb (<[id := doc]> (users d)) (matches d) (S id)) ;;
        ret id
    else throw ValidationError
  end.

Definition register_try (b : RegisterBody) (file : option string) : M Response :=
  if negb (truthy (rb_firstName b)) || negb (truthy (rb_lastName b)) ||
     negb (truthy (rb_genre b)) || negb (truthy (rb_email b)) ||
     negb (truthy (rb_password b)) || negb (truthy (rb_dob b)) ||
     negb (truthy (rb_preference b))
  then ret (status_json 400 (Message "Missing fields"))
  else
    let first := default "" (rb_firstName b) in
    let av := (λ filename, "/uploads/" +:+ filename) <$> file in
    id ← User_create first (default "" (rb_lastName b)) (default "" (rb_genre b))
           (default "" (rb_email b)) (bcrypt_hash (default "" (rb_password b)))
           (new_Date (default "" (rb_dob b)))
           (if truthy (rb_preference b) then rb_preference b else Some "all") av;
    ret (json (TokenUser id id first av)).

Definition post_register (b : RegisterBody) (file : option string) : M Response :=
  try_catch (register_try b file) (λ _, ret server_error).

(** ** PUT /api/users/me *)

(** Plain fields replace the values of their paths; the setter of [email]
    lowers the case. *)
Definition apply_updates (ups : Updates) (u : User) : User :=
  mkUser (default (firstName u) (up_firstName ups))
         (default (lastName u) (up_lastName ups))
         (default (genre u) (up_genre ups))
         (default (email u) (toLowerCase <$> up_email ups))
         (default (password u) (up_password ups))
         (default (dob u) (up_dob ups))
         (default (preference u) (up_preference ups))
         (default (interests u) (up_interests ups))
         (default (avatar u) (up_avatar ups))
         (default (liked u) (up_liked ups))
         (default (likedBy u) (up_likedBy ups)).

(** The document an update leaves of the stored one. *)
Definition updated (body : UpdateBody) (u : User) : User :=
  match body with
  | Fields ups => apply_updates ups u
  | Operators f => f u
  | Uncastable => u
  end.

(** Whether the update gives the unique index of [email] a key to check. *)
Definition writes_email (body : UpdateBody) (u : User) : bool :=
  match body with
  | Fields ups => bool_decide (is_Some (up_email ups))
  | Operators f => negb (bool_decide (email (f u) = email u))
  | Uncastable => false
  end.

(** [User.findByIdAndUpdate(id, updates, { new: true })]: the update is
    cast first, a failed cast rejects without a round trip; no validator
    runs; the unique index on [email] applies to an email the update
    writes. *)
Definition User_findByIdAndUpdate (id : ObjectId) (body : UpdateBody)
    : M (option User) :=
  match body with
  | Uncastable => throw CastError
  | _ =>
    round_trip ;;
    d ← get_db;
    match users d !! id with
    | None => ret None
    | Some u =>
      let u' := updated body u in
      if writes_email body u && email_taken d (Some id) (email u')
      then throw DuplicateKey
      else
        put_db (set_users (<[id := u']> (users d)) d) ;;
        ret (Some u')
    end
  end.

(** Lines 159-165: no [try]. *)
Definition put_users_me (req_user : ObjectId) (updates : UpdateBody) : M Response :=
  user ← User_findByIdAndUpdate req_user updates;
  ret (json (SelfBody (select_self req_user <$> user))).

(** ** The service as a transition system *)

Definition serve (rq : Request) : M Response :=
  match rq with
  | Register b file => post_register b file
  | GetSelf a => route a get_users_me
  | UpdateProfile a updates => route a (λ u, put_users_me u updates)
  | ListCandidates a => route a get_users
  | ListAll a => route a get_users_all
  | RecordLike a now targetId => route a (λ u, post_like now u targetId)
  | ListMatches a => route a get_matches
  end.

(** Requests served one at a time: the handler of a request runs to its
    end before the next request is admitted. *)
Definition after (w : World) (rq : Request) : World := (serve rq w).2.

Definition run (w : World) (rqs : list Request) : World := foldl after w rqs.

(** The worlds the service gets to from an empty database, whatever the
    outage schedule, by requests drawn from [allowed] and served one at a
    time. *)
Inductive reachable (allowed : Request → Prop) : World → Prop :=
  | reach_boot o : reachable allowed (mkWorld empty_db o)
  | reach_serve w rq :
      reachable allowed w → allowed rq → reachable allowed (after w rq).

Definition any_request (rq : Request) : Prop := True.

(** ** What a request can leave behind, whatever the persistence layer does *)

(** The document a complete registration body asks for, [date] being the
    Date its [dob] reads as. *)
Definition registered_doc (b : RegisterBody) (file : option string) (date : Date)
    : User :=
  mkUser (default "" (rb_firstName b)) (default "" (rb_lastName b))
         (default "" (rb_genre b)) (toLowerCase (default "" (rb_email b)))
         (bcrypt_hash (default "" (rb_password b))) date
         (rb_preference b) [] ((λ filename, "/uploads/" +:+ filename) <$> file)
         (Some []) (Some []).

Definition registered_db (b : RegisterBody) (file : option string) (date : Date)
    (d : Db) : Db :=
  mkDb (<[next_oid d := registered_doc b file date]> (users d)) (matches d)
       (S (next_oid d)).

Definition updated_db (id : ObjectId) (body : UpdateBody) (u : User) (d : Db) : Db :=
  set_users (<[id := updated body u]> (users d)) d.

Inductive serve_effect (d : Db) : Request → Db → Prop :=
  | se_none rq : serve_effect d rq d
  | se_register b file date :
      complete b = true →
      new_Date (default "" (rb_dob b)) = Some date →
      validates (registered_doc b file date) = true →
      email_taken d None (toLowerCase (default "" (rb_email b))) = false →
      serve_effect d (Register b file) (registered_db b file date d)
  | se_update id body u :
      users d !! id = Some u →
      (writes_email body u = true →
       email_taken d (Some id) (email (updated body u)) = false) →
      serve_effect d (UpdateProfile (Bearer id) body) (updated_db id body u d)
  | se_like id now t d' :
      is_Some (users d !! id) →
      like_effect now id t d d' →
      serve_effect d (RecordLike (Bearer id) now t) d'.

(** Normal operation: requests whose profile updates leave the relation
    arrays as they are and a valid document valid, and whose likes do not
    target the requester. *)
Definition normal_request (rq : Request) : Prop :=
  match rq with
  | UpdateProfile _ body =>
      ∀ u, likes (updated body u) = likes u ∧ likers (updated body u) = likers u ∧
           (validates u = true → validates (updated body u) = true)
  | _ => no_self_target rq
  end.

End Service.

(** ** A runtime for the scenarios

    It agrees with JavaScript on the strings the scenarios use: ASCII
    letters, and calendar dates written YYYY-MM-DD, which [new Date] reads
    as midnight UTC of that day. *)

Definition lower_ascii (c : Ascii.ascii) : Ascii.ascii :=
  let n := Ascii.nat_of_ascii c in
  if bool_decide (65 ≤ n ≤ 90) then Ascii.ascii_of_nat (n + 32) else c.

Fixpoint lowercase (s : string) : string :=
  match s with
  | EmptyString => EmptyString
  | String c rest => String (lower_ascii c) (lowercase rest)
  end.

Definition digit (c : Ascii.ascii) : option Z :=
  let n := Z.of_nat (Ascii.nat_of_ascii c) in
  if bool_decide (48 ≤ n ≤ 57)%Z then Some (n - 48)%Z else None.

Definition days_in_month (y m : Z) : Z :=
  if bool_decide (m = 2)%Z then
    if bool_decide (Z.modulo y 4 = 0 ∧ (Z.modulo y 100 ≠ 0 ∨ Z.modulo y 400 = 0))%Z
    then 29%Z else 28%Z
  else if bool_decide (m = 4 ∨ m = 6 ∨ m = 9 ∨ m = 11)%Z then 30%Z
  else 31%Z.

(** Days from 1970-01-01 to a day of the Gregorian calendar. *)
Definition days_from_civil (y m d : Z) : Z :=
  let y' := if bool_decide (m ≤ 2)%Z then (y - 1)%Z else y in
  let era := Z.div y' 400 in
  let yoe := (y' - era * 400)%Z in
  let mp := if bool_decide (2 < m)%Z then (m - 3)%Z else (m + 9)%Z in
  let doy := (Z.div (153 * mp + 2) 5 + d - 1)%Z in
  let doe := (yoe * 365 + Z.div yoe 4 - Z.div yoe 100 + doy)%Z in
  (era * 146097 + doe - 719468)%Z.

Definition is_hyphen (c : Ascii.ascii) : bool :=
  bool_decide (Ascii.nat_of_ascii c = 45).

Definition iso_date (s : string) : option Date :=
  match s with
  | String y1 (String y2 (String y3 (String y4 (String h1 (String m1 (String m2
      (String h2 (String d1 (String d2 EmptyString))))))))) =>
    y1 ← digit y1; y2 ← digit y2; y3 ← digit y3; y4 ← digit y4;
    m1 ← digit m1; m2 ← digit m2; d1 ← digit d1; d2 ← digit d2;
    let y := (1000 * y1 + 100 * y2 + 10 * y3 + y4)%Z in
    let m := (10 * m1 + m2)%Z in
    let d := (10 * d1 + d2)%Z in
    if is_hyphen h1 && is_hyphen h2 &&
       bool_decide (1 ≤ m ≤ 12 ∧ 1 ≤ d ≤ days_in_month y m)%Z
    then Some (days_from_civil y m d * 86400000)%Z
    else None
  | _ => None
  end.

Definition scenario_runtime : Runtime :=
  {| toLowerCase := lowercase; new_Date := iso_date |}.

Section Scenarios.
#[local] Existing Instance scenario_runtime.

(** ** Two registered users, and what they do *)

Definition alice : RegisterBody :=
  mkRegisterBody (Some "Alice") (Some "Ames") (Some "female")
                 (Some "Alice@example.org") (Some "hunter2") (Some "1990-04-01")
                 (Some "male").

Definition bob : RegisterBody :=
  mkRegisterBody (Some "Bob") (Some "Brown") (Some "male")
                 (Some "bob@example.org") (Some "swordfish") (Some "1988-11-23")
                 (Some "female").

(** Alice gets id 0, Bob id 1. *)
Definition two_users : World :=
  run (quiet empty_db) [Register alice None; Register bob None].

(** Alice likes Bob, then Bob likes Alice: a Match record is created. *)
Definition matched_world : World :=
  run two_users [RecordLike (Bearer 0) 10 (IdString 1);
                 RecordLike (Bearer 1) 11 (IdString 0)].

(** [{ "liked": l }] as the body of PUT /api/users/me *)
Definition assign_liked (l : list ObjectId) : Updates :=
  mkUpdates None None None None None None None None None (Some (Some l)) None.

(** After the match, Alice overwrites her liked array with []. *)
Definition matched_then_cleared : World :=
  run matched_world [UpdateProfile (Bearer 0) (Fields (assign_liked []))].


(** Alice writes her own id, twice, into her liked array. *)
Definition self_liked_world : World :=
  run (quiet empty_db)
      [Register alice None; UpdateProfile (Bearer 0) (Fields (assign_liked [0; 0]))].

(** [{ "$push": { "liked": x } }] as the body of PUT /api/users/me *)
Definition push_liked (x : ObjectId) : UpdateBody :=
  Operators (λ u, set_liked (Some (likes u ++ [x])) u).

(** [{ "_id": x }], with the string form of [x], as the targetId of
    POST /api/like *)
Definition id_object (x : ObjectId) : TargetId :=
  IdFilter (λ y, bool_decide (y = x)).

(** [{ "preference": p }] as the body of PUT /api/users/me *)
Definition assign_preference (p : string) : Updates :=
  mkUpdates None None None None None None (Some (Some p)) None None None None.


Definition carol : RegisterBody :=
  mkRegisterBody (Some "Carol") (Some "Clark") (Some "female")
                 (Some "carol@example.org") (Some "opensesame") (Some "1992-07-15")
                 (Some "all").

(** Carol (id 2) registers with preference "all"; Bob sets his preference
    to "any". *)
Definition open_world : World :=
  run two_users [Register carol None;
                 UpdateProfile (Bearer 1) (Fields (assign_preference "any"))].



(** Alice's document once she and Bob are matched. *)
Definition alice_doc : User :=
  mkUser "Alice" "Ames" "female" "alice@example.org" (bcrypt_hash "hunter2")
         638928000000%Z (Some "male") [] None (Some [1]) (Some [1]).

(** [{ "email": e }] as the body of PUT /api/users/me *)
Definition assign_email (e : string) : Updates :=
  mkUpdates None None None (Some e) None None None None None None None.

(** Two users; the lookup of [auth] is answered, the round trip after it
    is not. *)
Definition drop_after_auth : World := mkWorld (db two_users) [false; true].

(** Alice has liked Bob; Bob has not answered yet. *)
Definition one_sided_world : World :=
  run two_users [RecordLike (Bearer 0) 10 (IdString 1)].

(** Alice's like of Bob loses its last round trip ([target.save()]) to an
    outage; then Bob likes Alice. *)
Definition half_recorded_world : World :=
  run (mkWorld (db two_users) [false; false; false; false; true])
      [RecordLike (Bearer 0) 10 (IdString 1); RecordLike (Bearer 1) 11 (IdString 0)].

(** Carol registers too (the Match record took id 2, she gets id 3); she
    and Alice like each other later on. *)
Definition two_matches_world : World :=
  run matched_world
      [Register carol None;
       RecordLike (Bearer 3) 20 (IdString 0); RecordLike (Bearer 0) 21 (IdString 3)].


End Scenarios.

(** ** Properties of the monad and of the persistence operations *)

Lemma wp_ret {A} (a : A) Q E d : Q a d → wp (ret a) Q E d.
Proof. intros H o. exact H. Qed.

Lemma wp_throw {A} e (Q : A → Db → Prop) E d : E d → wp (throw e) Q E d.
Proof. intros H o. exact H. Qed.

Lemma wp_bind {A B} (m : M A) (k : A → M B) Q E d :
  wp m (λ a d', wp (k a) Q E d') E d → wp (m ≫= k) Q E d.
Proof.
  intros H o. specialize (H o). unfold mbind, M_bind, bind.
  destruct (m (mkWorld d o)) as [[a|e] [d' o']]; simpl in *.
  - apply H.
  - exact H.
Qed.

Lemma wp_try_catch {A} (m : M A) h Q E d :
  wp m Q (λ d', ∀ e, wp (h e) Q E d') d → wp (try_catch m h) Q E d.
Proof.
  intros H o. specialize (H o). unfold try_catch.
  destruct (m (mkWorld d o)) as [[a|e] [d' o']]; simpl in *.
  - exact H.
  - apply H.
Qed.

Lemma wp_mono {A} (m : M A) (Q Q' : A → Db → Prop) (E E' : Db → Prop) d :
  wp m Q E d → (∀ a d', Q a d' → Q' a d') → (∀ d', E d' → E' d') → wp m Q' E' d.
Proof.
  intros H HQ HE o. specialize (H o).
  destruct (m (mkWorld d o)) as [[a|e] w']; auto.
Qed.

Lemma wp_round_trip Q E d : Q () d → E d → wp round_trip Q E d.
Proof.
  intros HQ HE o. unfold round_trip; simpl.
  destruct o as [|[] o]; simpl; assumption.
Qed.

Lemma wp_get_db Q E d : Q d d → wp get_db Q E d.
Proof. intros H o. exact H. Qed.

Lemma wp_put_db d' Q E d : Q () d' → wp (put_db d') Q E d.
Proof. intros H o. exact H. Qed.

Lemma wp_deref {A} (x : option A) Q E d :
  (∀ a, x = Some a → Q a d) → (x = None → E d) → wp (deref x) Q E d.
Proof.
  intros HQ HE. destruct x; [apply wp_ret | apply wp_throw]; auto.
Qed.

Lemma wp_User_findById id Q E d :
  Q (users d !! id) d → E d → wp (User_findById id) Q E d.
Proof.
  intros HQ HE. unfold User_findById.
  apply wp_bind, wp_round_trip; [|exact HE].
  apply wp_bind, wp_get_db, wp_ret, HQ.
Qed.

(** A save writes only if the document validates and is still stored. *)
Lemma wp_User_save id doc p Q E d :
  (validates doc = true → is_Some (users d !! id) → Q () (store_path id p doc d)) →
  E d → wp (User_save id doc p) Q E d.
Proof.
  intros HQ HE. unfold User_save.
  destruct (validates doc) eqn:Hv; [|by apply wp_throw].
  apply wp_bind, wp_round_trip; [|exact HE].
  apply wp_bind, wp_get_db.
  destruct (users d !! id) as [u|] eqn:Hu; [|by apply wp_throw].
  apply wp_put_db, HQ; [done|]. rewrite ?Hu. done.
Qed.

Lemma wp_User_findById_value t Q E d :
  (t ≠ NotAnId → Q (found d t) d) → E d → wp (User_findById_value t) Q E d.
Proof.
  intros HQ HE.
  destruct t as [|id|sel|]; simpl; [| | |by apply wp_throw];
    (apply wp_bind, wp_round_trip; [|exact HE]);
    apply wp_bind, wp_get_db, wp_ret, HQ; done.
Qed.

Lemma wp_Match_findOne q Q E d :
  Q (List.find q (matches d)) d → E d → wp (Match_findOne q) Q E d.
Proof.
  intros HQ HE. unfold Match_findOne.
  apply wp_bind, wp_round_trip; [|exact HE].
  apply wp_bind, wp_get_db, wp_ret, HQ.
Qed.

Lemma wp_Match_create a b now Q E d :
  Q (mkMatch (next_oid d) a b now)
    (mkDb (users d) (matches d ++ [mkMatch (next_oid d) a b now]) (S (next_oid d))) →
  E d → wp (Match_create a b now) Q E d.
Proof.
  intros HQ HE. unfold Match_create.
  apply wp_bind, wp_round_trip; [|exact HE].
  apply wp_bind, wp_get_db. apply wp_bind, wp_put_db, wp_ret, HQ.
Qed.

Lemma wp_after {A} (m : M A) Q d o :
  wp m (λ _, Q) Q d → Q (db (m (mkWorld d o)).2).
Proof.
  intros H. specialize (H o). by destruct (m (mkWorld d o)) as [[a|e] w'].
Qed.

(** ** What [findById] makes of a target id *)

Lemma find_None_iff {A} (f : A → bool) (l : list A) :
  List.find f l = None ↔ ∀ x, x ∈ l → f x = false.
Proof.
  induction l as [|y l IH]; simpl.
  - split; [|done]. intros _ x Hx. by apply elem_of_nil in Hx.
  - destruct (f y) eqn:Hy.
    + split; [done|]. intros H. specialize (H y (list_elem_of_here _ _)). congruence.
    + rewrite IH. split.
      * intros H x [->|Hx]%elem_of_cons; auto.
      * intros H x Hx. apply H. by apply list_elem_of_further.
Qed.

(** Past line 197, a document that is found is a stored one that the
    target id selects. *)
Lemma found_Some A t d B ub :
  equals A t = false → found d t = Some (B, ub) →
  finds A t B ∧ users d !! B = Some ub.
Proof.
  destruct t as [|id|sel|]; simpl; try done.
  - intros Hne%bool_decide_eq_false.
    destruct (users d !! id) as [u|] eqn:Hu; simpl; [|done].
    by intros [= <- <-].
  - intros _ Hfind. apply find_some in Hfind as [Hin Hsel].
    by apply list_elem_of_In, elem_of_map_to_list in Hin.
Qed.

Lemma found_filter_None sel d :
  found d (IdFilter sel) = None ↔ ∀ id, is_Some (users d !! id) → sel id = false.
Proof.
  simpl. rewrite find_None_iff. split.
  - intros H id [u Hu]. by apply (H (id, u)), elem_of_map_to_list.
  - intros H [id u] Hin%elem_of_map_to_list. apply H. simpl. by rewrite Hin.
Qed.

(** ** POST /api/like: validation *)

Lemma has_id_true arr x : has_id arr x = true ↔ x ∈ arr.
Proof. unfold has_id. apply bool_decide_eq_true. Qed.

Lemma has_id_false arr x : has_id arr x = false ↔ x ∉ arr.
Proof. unfold has_id. apply bool_decide_eq_false. Qed.

(** Past validation, the handler answers 200 or rejects. *)
Lemma wp_like_record_status now A tid me target d :
  wp (like_record now A tid me target) (λ r _, status r = 200) (λ _, True) d.
Proof.
  unfold like_record.
  assert (∀ d1, wp
    (if mutual A target
     then exists_ ← Match_findOne (pairs A tid);
          match exists_ with
          | Some _ => ret (json (Message "Liked"))
          | None => m ← Match_create A tid now;
                    ret (json (MessageMatch "It's a match!" m))
          end
     else ret (json (Message "Liked")))
    (λ r _, status r = 200) (λ _, True) d1) as Htail.
  { intros d1. destruct (mutual A target).
    - apply wp_bind, wp_Match_findOne; [|done].
      destruct (List.find _ _); [by apply wp_ret|].
      apply wp_bind, wp_Match_create; [|done]. by apply wp_ret.
    - by apply wp_ret. }
  apply wp_bind.
  destruct (has_id _ tid); [apply wp_ret | apply wp_User_save; [intros _ _|done]];
    apply wp_bind;
    (destruct (has_id _ A); [apply wp_ret | apply wp_User_save; [intros _ _|done]]);
    apply Htail.
Qed.

(** A validation answer leaves the database as it was. *)
Lemma wp_like_try_validation now A t d :
  wp (like_try now A t)
     (λ r d', r = InvalidInput ∨ r = SelfLikeRejected ∨ r = NotFound → d' = d)
     (λ _, True) d.
Proof.
  unfold like_try.
  apply wp_bind, wp_User_findById; [|done].
  destruct (falsy t); [by apply wp_ret|].
  apply wp_bind, wp_deref; [|done]. intros me _.
  destruct (equals A t); [by apply wp_ret|].
  apply wp_bind, wp_User_findById_value; [|done]. intros _.
  destruct (found d t) as [[tid target]|]; [|by apply wp_ret].
  eapply wp_mono; [apply wp_like_record_status | | done].
  intros r d' Hst [-> | [-> | ->]]; discriminate.
Qed.

Lemma wp_post_like_validation now A t d :
  wp (post_like now A t)
     (λ r d', r = InvalidInput ∨ r = SelfLikeRejected ∨ r = NotFound → d' = d)
     (λ _, False) d.
Proof.
  unfold post_like. apply wp_try_catch.
  eapply wp_mono; [apply wp_like_try_validation | done |].
  intros d' _ e. apply wp_ret. intros [?|[?|?]]; discriminate.
Qed.

(** C10. Whenever POST /api/like answers with one of its validation
    errors (target id required, cannot like yourself, user not found), the
    database after the call is the database before it, whatever the target
    id was and whatever the persistence layer did meanwhile. *)
Theorem like_error_leaves_state now A t w r :
  (post_like now A t w).1 = Normal r →
  r = InvalidInput ∨ r = SelfLikeRejected ∨ r = NotFound →
  db (post_like now A t w).2 = db w.
Proof.
  intros Hr Herr. destruct w as [d o].
  pose proof (wp_post_like_validation now A t d o) as H.
  destruct (post_like now A t (mkWorld d o)) as [[r'|e] w']; simpl in *; [|done].
  apply H. congruence.
Qed.

(** ** POST /api/like with no outage *)

(** Unfolds the monadic plumbing of a handler run. *)
Ltac run_handler :=
  unfold quiet, User_findById_value, User_findById, Match_findOne, Match_create,
    round_trip, get_db, put_db, deref, throw, ret, try_catch,
    mbind, M_bind, bind; simpl.

Lemma validates_set_liked l u : validates (set_liked l u) = validates u.
Proof. done. Qed.

Lemma validates_set_likedBy l u : validates (set_likedBy l u) = validates u.
Proof. done. Qed.

Lemma User_save_quiet id doc p d :
  validates doc = true → is_Some (users d !! id) →
  User_save id doc p (quiet d) = (Normal (), quiet (store_path id p doc d)).
Proof.
  intros Hv [u Hu]. unfold User_save. rewrite Hv. run_handler. by rewrite Hu.
Qed.


Lemma half_recorded_matches A B ua d : matches (half_recorded A B ua d) = matches d.
Proof. unfold half_recorded. by case_match. Qed.

Lemma half_recorded_next_oid A B ua d :
  next_oid (half_recorded A B ua d) = next_oid d.
Proof. unfold half_recorded. by case_match. Qed.

Lemma half_recorded_is_Some A B ua d id :
  is_Some (users (half_recorded A B ua d) !! id) ↔ is_Some (users d !! id).
Proof.
  unfold half_recorded. case_match; [done|]. simpl. apply lookup_alter_is_Some.
Qed.

Lemma recorded_matches A B me target d :
  matches (recorded A B me target d) = matches d.
Proof. unfold recorded. case_match; simpl; apply half_recorded_matches. Qed.

Lemma recorded_next_oid A B me target d :
  next_oid (recorded A B me target d) = next_oid d.
Proof. unfold recorded. case_match; simpl; apply half_recorded_next_oid. Qed.

Lemma recorded_is_Some A B me target d id :
  is_Some (users (recorded A B me target d) !! id) ↔ is_Some (users d !! id).
Proof.
  unfold recorded. case_match; simpl.
  - apply half_recorded_is_Some.
  - rewrite lookup_alter_is_Some. apply half_recorded_is_Some.
Qed.

(** With both documents valid and stored, both saves go through. *)
Lemma like_record_quiet now A B me target d :
  validates me = true → validates target = true →
  is_Some (users d !! A) → is_Some (users d !! B) →
  like_record now A B me target (quiet d) =
  let d2 := recorded A B me target d in
  if mutual A target then
    match List.find (pairs A B) (matches d) with
    | Some _ => (Normal Liked, quiet d2)
    | None =>
      let m := mkMatch (next_oid d) A B now in
      (Normal (MatchFormed m), quiet (mkDb (users d2) (matches d ++ [m]) (S (next_oid d))))
    end
  else (Normal Liked, quiet d2).
Proof.
  intros Hvm Hvt HA HB.
  assert ((if has_id (likes me) B then ret ()
           else User_save A (set_liked (Some (likes me ++ [B])) me) liked_path) (quiet d)
          = (Normal (), quiet (half_recorded A B me d))) as Hfirst.
  { unfold half_recorded. destruct (has_id (likes me) B); [done|].
    by apply User_save_quiet. }
  assert ((if has_id (likers target) A then ret ()
           else User_save B (set_likedBy (Some (likers target ++ [A])) target)
                          likedBy_path) (quiet (half_recorded A B me d))
          = (Normal (), quiet (recorded A B me target d))) as Hsecond.
  { unfold recorded. destruct (has_id (likers target) A); [done|].
    apply User_save_quiet; [done|]. by apply half_recorded_is_Some. }
  unfold like_record, mbind, M_bind, bind. rewrite Hfirst, Hsecond.
  destruct (mutual A target); [|done].
  rewrite <- (recorded_matches A B me target d),
          <- (recorded_next_oid A B me target d).
  run_handler.
  by destruct (List.find (pairs A B) (matches (recorded A B me target d))).
Qed.

Lemma like_try_quiet now A t me d :
  users d !! A = Some me →
  like_try now A t (quiet d) =
  if falsy t then (Normal InvalidInput, quiet d)
  else if equals A t then (Normal SelfLikeRejected, quiet d)
  else match t with
       | NotAnId => (Abrupt CastError, quiet d)
       | _ =>
         match found d t with
         | None => (Normal NotFound, quiet d)
         | Some (B, target) => like_record now A B me target (quiet d)
         end
       end.
Proof.
  intros HA. unfold like_try. run_handler. rewrite HA. simpl.
  destruct t as [|id|sel|]; simpl; try done.
  - destruct (bool_decide (A = id)); [done|]. simpl.
    by destruct (users d !! id).
  - by destruct (List.find _ _) as [[B target]|].
Qed.

Lemma post_like_quiet now A B me target d :
  users d !! A = Some me → A ≠ B → users d !! B = Some target →
  validates me = true → validates target = true →
  post_like now A (IdString B) (quiet d) = like_record now A B me target (quiet d).
Proof.
  intros HA Hne HB Hvm Hvt. unfold post_like, try_catch.
  rewrite (like_try_quiet now A (IdString B) me d HA). simpl.
  rewrite bool_decide_eq_false_2 by done. rewrite HB. simpl.
  rewrite like_record_quiet by (done || by eexists).
  simpl. destruct (mutual A target); [destruct (List.find _ _)|]; reflexivity.
Qed.

(** Past validation, POST /api/like answers 200 or 500. *)
Lemma like_record_caught now A B me target w r :
  (try_catch (like_record now A B me target) (λ _, ret server_error) w).1 = Normal r →
  status r = 200 ∨ r = server_error.
Proof.
  destruct w as [d o]. pose proof (wp_like_record_status now A B me target d o) as H.
  unfold try_catch.
  destruct (like_record now A B me target (mkWorld d o)) as [[r'|e] w'];
    simpl in *; intros [= <-]; auto.
Qed.

(** C7, amended.  With a responsive persistence layer and an
    authenticated requester A, POST /api/like answers "targetId required"
    exactly when the target id is missing (or falsy), "Cannot like
    yourself" exactly when the target id is the string form of A's own id
    (so such a self-like is always rejected that way), and "User not
    found" exactly when the target id is the string form of another id
    that references no user, or a condition that no stored user meets: the
    three checks apply in this order.  A target id that is present and is
    no id (mongoose cannot cast it) is answered 500 "Server error". *)
Theorem like_validation_order now w A t me :
  outages w = [] →
  users (db w) !! A = Some me →
  ((post_like now A t w).1 = Normal InvalidInput ↔ t = NoTarget) ∧
  ((post_like now A t w).1 = Normal SelfLikeRejected ↔ t = IdString A) ∧
  ((post_like now A t w).1 = Normal NotFound ↔
     (∃ tid, t = IdString tid ∧ tid ≠ A ∧ users (db w) !! tid = None) ∨
     (∃ sel, t = IdFilter sel ∧ ∀ id, is_Some (users (db w) !! id) → sel id = false)) ∧
  (t = NotAnId → (post_like now A t w).1 = Normal server_error).
Proof.
  destruct w as [d o]. simpl. intros -> HA.
  change (mkWorld d []) with (quiet d).
  assert (∀ B target r,
    (try_catch (like_record now A B me target) (λ _, ret server_error) (quiet d)).1
      = Normal r →
    r ≠ InvalidInput ∧ r ≠ SelfLikeRejected ∧ r ≠ NotFound) as Hpast.
  { intros B target r [Hr| ->]%like_record_caught; [|done].
    split_and!; intros ->; discriminate. }
  unfold post_like. unfold try_catch at 1 2 3 4.
  rewrite (like_try_quiet now A t me d HA).
  destruct t as [|tid|sel|]; simpl.
  - split_and!; [done| | |done]; split; try done.
    intros [(tid & ? & _)|(sel & ? & _)]; done.
  - destruct (decide (A = tid)) as [<-|Hne].
    + rewrite bool_decide_eq_true_2 by done. simpl.
      split_and!; [done|done| |done]. split; [done|].
      intros [(tid & [= <-] & ? & _)|(sel & ? & _)]; done.
    + rewrite bool_decide_eq_false_2 by done.
      destruct (users d !! tid) as [target|] eqn:HB; simpl.
      * specialize (Hpast tid target). unfold try_catch in Hpast.
        destruct (like_record now A tid me target (quiet d)) as [[r|e] w'];
          simpl in *.
        -- destruct (Hpast r eq_refl) as (H1 & H2 & H3).
           split_and!; [| | |done]; (split; [by intros [= ->]|]).
           ++ done.
           ++ intros [= ->]. done.
           ++ intros [(tid' & [= <-] & _ & ?)|(sel & ? & _)]; congruence.
        -- split_and!; [| | |done]; (split; [done|]).
           ++ done.
           ++ intros [= ->]. done.
           ++ intros [(tid' & [= <-] & _ & ?)|(sel & ? & _)]; congruence.
      * split_and!; [done| | |done]; split; try done.
        -- intros [= ->]. done.
        -- intros _. left. exists tid. split_and!; [done|congruence|done].
  - destruct (found d (IdFilter sel)) as [[B target]|] eqn:Hfound.
    + assert (¬ ∀ id, is_Some (users d !! id) → sel id = false) as Hsome.
      { intros Hnone. apply (proj2 (found_filter_None sel d)) in Hnone. congruence. }
      simpl in Hfound. rewrite Hfound.
      specialize (Hpast B target). unfold try_catch in Hpast.
      destruct (like_record now A B me target (quiet d)) as [[r|e] w'];
        simpl in *.
      * destruct (Hpast r eq_refl) as (H1 & H2 & H3).
        split_and!; [| | |done]; (split; [by intros [= ->]|]); try done.
        intros [(tid' & ? & _)|(sel' & [= <-] & ?)]; done.
      * split_and!; [| | |done]; (split; [done|]); try done.
        intros [(tid' & ? & _)|(sel' & [= <-] & ?)]; done.
    + pose proof (proj1 (found_filter_None sel d) Hfound) as Hnone.
      simpl in Hfound. rewrite Hfound. simpl.
      split_and!; [done|done| |done]. split; [|done].
      intros _. right. by exists sel.
  - split_and!; [done|done| |done]. split; [done|].
    intros [(tid & ? & _)|(sel & ? & _)]; done.
Qed.

(** ** Match records of a pair *)

Lemma filter_nil_iff {A} (P : A → Prop) `{∀ x, Decision (P x)} (l : list A) :
  filter P l = [] ↔ ∀ x, x ∈ l → ¬ P x.
Proof.
  split.
  - intros Hnil x Hx HP. by apply (filter_nil_not_elem_of P l x).
  - induction l as [|y l IH]; [done|]. intros Hall.
    rewrite filter_cons_False; [|apply Hall, list_elem_of_here].
    apply IH. intros x Hx. apply Hall. by apply list_elem_of_further.
Qed.

Lemma pairs_sym a b m : pairs a b m = pairs b a m.
Proof. unfold pairs. apply orb_comm. Qed.

Lemma paired_sym d a b : paired d a b ↔ paired d b a.
Proof. unfold paired. split; intros (m & ? & ?); exists m; by rewrite pairs_sym. Qed.



Lemma find_paired d a b :
  paired d a b → is_Some (List.find (pairs a b) (matches d)).
Proof.
  intros (m & Hm & Hp). destruct (List.find _ _) eqn:Hf; [done|].
  rewrite find_None_iff in Hf. specialize (Hf m Hm). congruence.
Qed.

Lemma match_count_unpaired d a b : ¬ paired d a b → match_count d a b = 0.
Proof.
  intros Hno. unfold match_count.
  assert (filter (λ m, pairs a b m = true) (matches d) = []) as ->; [|done].
  apply filter_nil_iff. intros m Hm Hp. destruct Hno. by exists m.
Qed.

Lemma mutual_true A target : mutual A target = true ↔ A ∈ likes target.
Proof.
  unfold mutual, likes. destruct (liked target); simpl.
  - apply has_id_true.
  - split; [done|]. intros H. by apply elem_of_nil in H.
Qed.




(** ** What recording a like does to the two documents *)

Lemma recorded_lookup_me A B ua ub d :
  A ≠ B →
  users d !! A = Some ua →
  users (recorded A B ua ub d) !! A =
    Some (if has_id (likes ua) B then ua else set_liked (Some (likes ua ++ [B])) ua).
Proof.
  intros Hne HA. unfold recorded, half_recorded, store_path.
  destruct (has_id (likes ua) B), (has_id (likers ub) A); simpl;
    rewrite ?lookup_alter_ne by done; rewrite ?lookup_alter_eq, ?HA; done.
Qed.

Lemma recorded_lookup_target A B ua ub d :
  A ≠ B →
  users d !! B = Some ub →
  users (recorded A B ua ub d) !! B =
    Some (if has_id (likers ub) A then ub else set_likedBy (Some (likers ub ++ [A])) ub).
Proof.
  intros Hne HB. unfold recorded, half_recorded, store_path.
  destruct (has_id (likes ua) B), (has_id (likers ub) A); simpl;
    rewrite ?lookup_alter_eq; rewrite ?lookup_alter_ne by done; rewrite ?HB; done.
Qed.

Lemma recorded_lookup_other A B ua ub d C :
  C ≠ A → C ≠ B →
  users (recorded A B ua ub d) !! C = users d !! C.
Proof.
  intros HA HB. unfold recorded, half_recorded, store_path.
  destruct (has_id (likes ua) B), (has_id (likers ub) A); simpl;
    rewrite ?lookup_alter_ne by done; done.
Qed.


(** The two shapes of a successful like. *)
Lemma post_like_quiet_cases now A B ua ub d :
  users d !! A = Some ua → A ≠ B → users d !! B = Some ub →
  validates ua = true → validates ub = true →
  let d2 := recorded A B ua ub d in
  (A ∈ likes ub ∧ ¬ paired d A B ∧
   post_like now A (IdString B) (quiet d) =
     (Normal (MatchFormed (mkMatch (next_oid d) A B now)),
      quiet (mkDb (users d2) (matches d ++ [mkMatch (next_oid d) A B now])
                  (S (next_oid d)))))
  ∨ ((A ∉ likes ub ∨ paired d A B) ∧
     post_like now A (IdString B) (quiet d) = (Normal Liked, quiet d2)).
Proof.
  intros HA Hne HB Hva Hvb d2.
  rewrite (post_like_quiet now A B ua ub d HA Hne HB Hva Hvb).
  rewrite like_record_quiet by (done || by eexists).
  fold d2. simpl.
  destruct (mutual A ub) eqn:Hmut.
  - apply mutual_true in Hmut.
    destruct (List.find (pairs A B) (matches d)) as [m|] eqn:Hfind.
    + right. split; [|done]. right.
      apply find_some in Hfind as [Hin Hp]. exists m.
      by rewrite list_elem_of_In.
    + left. split_and!; [done| |done].
      intros Hp%find_paired. rewrite Hfind in Hp. by destruct Hp.
  - right. split; [|done]. left. rewrite <- mutual_true. congruence.
Qed.

Lemma paired_app d a b m us n :
  paired d a b → paired (mkDb us (matches d ++ [m]) n) a b.
Proof.
  intros (m' & Hin & Hp). exists m'. split; [|done].
  simpl. apply elem_of_app. by left.
Qed.






Section ServiceProperties.
Context {runtime : Runtime}.

(** ** Reachability *)

Lemma run_reachable allowed w rqs :
  reachable allowed w → Forall allowed rqs → reachable allowed (run w rqs).
Proof.
  intros Hw Hall. revert w Hw.
  induction Hall as [|rq rqs Hrq _ IH]; intros w Hw; [done|].
  simpl. apply IH. by apply reach_serve.
Qed.

Lemma reachable_mono (allowed allowed' : Request → Prop) w :
  (∀ rq, allowed rq → allowed' rq) → reachable allowed w → reachable allowed' w.
Proof.
  intros Hsub Hw. induction Hw; [apply reach_boot | apply reach_serve; auto].
Qed.

(** ** Likes between matched users *)


(** ** Liking twice *)

Lemma occurrences_snoc x l : occurrences x (l ++ [x]) = S (occurrences x l).
Proof.
  unfold occurrences. rewrite filter_app, length_app.
  rewrite filter_cons_True by done. simpl. lia.
Qed.

Lemma occurrences_absent x l : x ∉ l → occurrences x l = 0.
Proof.
  intros Hx. unfold occurrences.
  assert (filter (λ y, y = x) l = []) as ->; [|done].
  apply filter_nil_iff. intros y Hy ->. done.
Qed.

Lemma occurrences_present x l : x ∈ l → 1 ≤ occurrences x l.
Proof.
  intros Hx. unfold occurrences.
  assert (x ∈ filter (λ y, y = x) l) as Hin by (by apply list_elem_of_filter).
  destruct (filter _ l); [by apply elem_of_nil in Hin | simpl; lia].
Qed.

Lemma likes_set_likedBy l u : likes (set_likedBy l u) = likes u.
Proof. done. Qed.

Lemma likers_set_liked l u : likers (set_liked l u) = likers u.
Proof. done. Qed.

(** After one like, both documents hold the like, as often as before or
    once if they did not hold it. *)
Lemma recorded_me_once (B : nat) ua :
  let ua' := if has_id (likes ua) B then ua else set_liked (Some (likes ua ++ [B])) ua in
  B ∈ likes ua' ∧
  occurrences B (likes ua') = Nat.max 1 (occurrences B (likes ua)) ∧
  likers ua' = likers ua ∧
  validates ua' = validates ua.
Proof.
  destruct (has_id (likes ua) B) eqn:Hh; simpl.
  - apply has_id_true in Hh. split_and!; [done| |done|done].
    pose proof (occurrences_present _ _ Hh). lia.
  - apply has_id_false in Hh. unfold likes at 1 3. simpl. split_and!; [| |done|done].
    + apply elem_of_app. right. apply list_elem_of_here.
    + by rewrite occurrences_snoc, occurrences_absent.
Qed.

Lemma recorded_target_once (A : nat) ub :
  let ub' := if has_id (likers ub) A then ub else set_likedBy (Some (likers ub ++ [A])) ub in
  A ∈ likers ub' ∧
  occurrences A (likers ub') = Nat.max 1 (occurrences A (likers ub)) ∧
  likes ub' = likes ub ∧
  validates ub' = validates ub.
Proof.
  destruct (has_id (likers ub) A) eqn:Hh; simpl.
  - apply has_id_true in Hh. split_and!; [done| |done|done].
    pose proof (occurrences_present _ _ Hh). lia.
  - apply has_id_false in Hh. unfold likers at 1 3. simpl. split_and!; [| |done|done].
    + apply elem_of_app. right. apply list_elem_of_here.
    + by rewrite occurrences_snoc, occurrences_absent.
Qed.


(** ** The remaining persistence operations and the middleware *)

Lemma wp_User_find q n Q E d :
  Q (take n (filter (query_sat q) (map_to_list (users d)))) d → E d →
  wp (User_find q n) Q E d.
Proof.
  intros HQ HE. unfold User_find.
  apply wp_bind, wp_round_trip; [|exact HE].
  apply wp_bind, wp_get_db, wp_ret, HQ.
Qed.

Lemma wp_Match_find_sorted q Q E d :
  Q (merge_sort newest_first (filter (λ m, q m = true) (matches d))) d → E d →
  wp (Match_find_sorted q) Q E d.
Proof.
  intros HQ HE. unfold Match_find_sorted.
  apply wp_bind, wp_round_trip; [|exact HE].
  apply wp_bind, wp_get_db, wp_ret, HQ.
Qed.

Lemma wp_populate_both ms Q E d :
  Q (populated d <$> ms) d → E d → wp (populate_both ms) Q E d.
Proof.
  intros HQ HE. unfold populate_both.
  apply wp_bind, wp_round_trip; [|exact HE].
  apply wp_bind, wp_round_trip; [|exact HE].
  apply wp_bind, wp_get_db, wp_ret, HQ.
Qed.

Lemma wp_User_create first last g mail hashed date pref av Q E d :
  (∀ dt, date = Some dt →
     validates (mkUser first last g (toLowerCase mail) hashed dt
                       (Some (default "all" pref)) [] av (Some []) (Some [])) = true →
     email_taken d None (toLowerCase mail) = false →
     Q (next_oid d)
       (mkDb (<[next_oid d :=
                 mkUser first last g (toLowerCase mail) hashed dt
                        (Some (default "all" pref)) [] av (Some []) (Some [])]>
                (users d))
             (matches d) (S (next_oid d)))) →
  E d →
  wp (User_create first last g mail hashed date pref av) Q E d.
Proof.
  intros HQ HE. unfold User_create.
  destruct date as [dt|]; [|by apply wp_throw].
  destruct (validates _) eqn:Hv; [|by apply wp_throw].
  apply wp_bind, wp_round_trip; [|exact HE].
  apply wp_bind, wp_get_db. simpl.
  destruct (email_taken d None (toLowerCase mail)) eqn:Htaken; [by apply wp_throw|].
  apply wp_bind, wp_put_db, wp_ret. by apply HQ.
Qed.

Lemma wp_User_findByIdAndUpdate id body Q E d :
  (users d !! id = None → Q None d) →
  (∀ u, users d !! id = Some u →
        (writes_email body u = true →
         email_taken d (Some id) (email (updated body u)) = false) →
        Q (Some (updated body u))
          (set_users (<[id := updated body u]> (users d)) d)) →
  E d →
  wp (User_findByIdAndUpdate id body) Q E d.
Proof.
  intros HNone HSome HE. unfold User_findByIdAndUpdate.
  assert (wp
    (round_trip ;;
     d ← get_db;
     match users d !! id with
     | None => ret None
     | Some u =>
       let u' := updated body u in
       if writes_email body u && email_taken d (Some id) (email u')
       then throw DuplicateKey
       else put_db (set_users (<[id := u']> (users d)) d) ;; ret (Some u')
     end) Q E d) as Hrun.
  { apply wp_bind, wp_round_trip; [|exact HE].
    apply wp_bind, wp_get_db.
    destruct (users d !! id) as [u|] eqn:Hu; [|by apply wp_ret, HNone].
    simpl.
    destruct (writes_email body u && email_taken d (Some id) (email (updated body u)))
      eqn:Hguard; [by apply wp_throw|].
    apply wp_bind, wp_put_db, wp_ret. apply HSome; [done|].
    intros Hw. rewrite Hw in Hguard. done. }
  destruct body; [exact Hrun | exact Hrun | by apply wp_throw].
Qed.

(** [auth] never rejects and never writes; it lets through only the id
    of a stored user. *)
Lemma wp_auth a Q E d :
  (∀ r, status r = 401 → Q (inl r) d) →
  (∀ id, a = Bearer id → is_Some (users d !! id) → Q (inr id) d) →
  wp (auth a) Q E d.
Proof.
  intros H401 Hpass. destruct a as [| |id]; simpl.
  - by apply wp_ret, H401.
  - by apply wp_ret, H401.
  - apply wp_try_catch, wp_bind, wp_User_findById.
    + destruct (users d !! id) eqn:Hu; apply wp_ret; [|by apply H401].
      apply Hpass; [done|]. by rewrite Hu.
    + intros e. by apply wp_ret, H401.
Qed.

Lemma wp_route a handler Q E d :
  (∀ r, status r = 401 → Q r d) →
  (∀ id, a = Bearer id → is_Some (users d !! id) → wp (handler id) Q E d) →
  wp (route a handler) Q E d.
Proof.
  intros H401 Hh. unfold route. apply wp_bind, wp_auth.
  - intros r Hr. by apply wp_ret, H401.
  - intros id Ha Hid. by apply Hh.
Qed.

(** The listing handlers write nothing. *)
Lemma wp_get_users_me_reads id d :
  wp (get_users_me id) (λ _ d', d' = d) (λ d', d' = d) d.
Proof. unfold get_users_me. by apply wp_bind, wp_get_db, wp_ret. Qed.

Lemma wp_get_users_reads id d :
  wp (get_users id) (λ _ d', d' = d) (λ d', d' = d) d.
Proof.
  unfold get_users. apply wp_bind, wp_User_findById; [|done].
  apply wp_bind, wp_deref; [|done]. intros me _.
  apply wp_bind, wp_User_find; [|done]. by apply wp_ret.
Qed.

Lemma wp_get_users_all_reads id d :
  wp (get_users_all id) (λ _ d', d' = d) (λ d', d' = d) d.
Proof.
  unfold get_users_all. apply wp_try_catch, wp_bind, wp_User_find.
  - by apply wp_ret.
  - intros e. by apply wp_ret.
Qed.

Lemma wp_get_matches_reads id d :
  wp (get_matches id) (λ _ d', d' = d) (λ d', d' = d) d.
Proof.
  unfold get_matches. apply wp_bind, wp_Match_find_sorted; [|done].
  apply wp_bind, wp_populate_both; [|done]. by apply wp_ret.
Qed.

(** ** POST /api/like under any outage schedule *)

Lemma wp_like_record_effect now A t B ua ub d :
  finds A t B → users d !! A = Some ua → users d !! B = Some ub →
  wp (like_record now A B ua ub)
     (λ _ d', like_effect now A t d d')
     (λ d', like_effect now A t d d') d.
Proof.
  intros Hf HA HB. unfold like_record.
  assert (wp
    (if mutual A ub
     then exists_ ← Match_findOne (pairs A B);
          match exists_ with
          | Some _ => ret (json (Message "Liked"))
          | None => m ← Match_create A B now;
                    ret (json (MessageMatch "It's a match!" m))
          end
     else ret (json (Message "Liked")))
    (λ _ d', like_effect now A t d d')
    (λ d', like_effect now A t d d') (recorded A B ua ub d)) as Htail.
  { assert (like_effect now A t d (recorded A B ua ub d)) as Hrec
      by (by eapply le_recorded).
    destruct (mutual A ub) eqn:Hmut; [|by apply wp_ret].
    apply wp_bind, wp_Match_findOne; [|done].
    rewrite recorded_matches.
    destruct (List.find (pairs A B) (matches d)) eqn:Hfind; [by apply wp_ret|].
    apply wp_bind, wp_Match_create; [|done]. apply wp_ret.
    rewrite recorded_matches, recorded_next_oid.
    eapply le_match; [done..| |].
    - by apply mutual_true.
    - intros Hp%find_paired. rewrite Hfind in Hp. by destruct Hp. }
  assert (wp
    (if has_id (likers ub) A then ret ()
     else User_save B (set_likedBy (Some (likers ub ++ [A])) ub) likedBy_path)
    (λ _ d', d' = recorded A B ua ub d)
    (λ d', like_effect now A t d d') (half_recorded A B ua d)) as Hsecond.
  { unfold recorded.
    destruct (has_id (likers ub) A); [by apply wp_ret|].
    apply wp_User_save; [done|]. by eapply le_half. }
  apply wp_bind.
  assert (wp
    (if has_id (likes ua) B then ret ()
     else User_save A (set_liked (Some (likes ua ++ [B])) ua) liked_path)
    (λ _ d', d' = half_recorded A B ua d)
    (λ d', like_effect now A t d d') d) as Hfirst.
  { unfold half_recorded.
    destruct (has_id (likes ua) B); [by apply wp_ret|].
    apply wp_User_save; [done|]. apply le_none. }
  eapply wp_mono; [apply Hfirst | | done].
  intros ? d1 ->. apply wp_bind.
  eapply wp_mono; [apply Hsecond | | done].
  intros ? d2 ->. apply Htail.
Qed.

Lemma wp_post_like_effect now A t d :
  wp (post_like now A t) (λ _ d', like_effect now A t d d') (λ _, False) d.
Proof.
  unfold post_like. apply wp_try_catch.
  eapply wp_mono with (Q := λ _ d', like_effect now A t d d')
                      (E := λ d', like_effect now A t d d');
    [|by auto|intros d' ? e; by apply wp_ret].
  unfold like_try.
  apply wp_bind, wp_User_findById; [|apply le_none].
  destruct (falsy t); [apply wp_ret, le_none|].
  apply wp_bind, wp_deref; [|intros; apply le_none]. intros ua HA.
  destruct (equals A t) eqn:Heq; [apply wp_ret, le_none|].
  apply wp_bind, wp_User_findById_value; [|apply le_none]. intros _.
  destruct (found d t) as [[B ub]|] eqn:Hfound; [|apply wp_ret, le_none].
  destruct (found_Some A t d B ub Heq Hfound) as [Hf HB].
  by apply wp_like_record_effect.
Qed.

Lemma post_like_effect now A t w :
  (∃ r, (post_like now A t w).1 = Normal r) ∧
  like_effect now A t (db w) (db (post_like now A t w).2).
Proof.
  destruct w as [d o]. pose proof (wp_post_like_effect now A t d o) as H.
  destruct (post_like now A t (mkWorld d o)) as [[r|e] w']; simpl in *; [|done].
  eauto.
Qed.

(** ** Every request under any outage schedule *)

Lemma complete_true b :
  complete b = true ↔
  ∃ f l g e p d pr,
    b = mkRegisterBody (Some f) (Some l) (Some g) (Some e) (Some p) (Some d) (Some pr) ∧
    f ≠ "" ∧ l ≠ "" ∧ g ≠ "" ∧ e ≠ "" ∧ p ≠ "" ∧ d ≠ "" ∧ pr ≠ "".
Proof.
  unfold complete, truthy. split.
  - destruct b as [[f|] [l|] [g|] [e|] [p|] [d|] [pr|]]; simpl;
      rewrite ?andb_false_r; try done.
    rewrite !andb_true_iff, !negb_true_iff, !bool_decide_eq_false.
    intros [[[[[[??]?]?]?]?]?]. by exists f, l, g, e, p, d, pr.
  - intros (f & l & g & e & p & d & pr & -> & ? & ? & ? & ? & ? & ? & ?). simpl.
    rewrite !andb_true_iff, !negb_true_iff, !bool_decide_eq_false. done.
Qed.

Lemma register_guard b :
  negb (truthy (rb_firstName b)) || negb (truthy (rb_lastName b)) ||
  negb (truthy (rb_genre b)) || negb (truthy (rb_email b)) ||
  negb (truthy (rb_password b)) || negb (truthy (rb_dob b)) ||
  negb (truthy (rb_preference b)) = negb (complete b).
Proof.
  unfold complete.
  by destruct (truthy (rb_firstName b)), (truthy (rb_lastName b)),
    (truthy (rb_genre b)), (truthy (rb_email b)), (truthy (rb_password b)),
    (truthy (rb_dob b)), (truthy (rb_preference b)).
Qed.


(** POST /api/register: a 200 answer carries the id of the document just
    stored; the two other answers leave the database as it was. *)
Lemma wp_post_register_effect b file d :
  wp (post_register b file)
     (λ r d',
        (d' = d ∧ ((r = MissingFields ∧ complete b = false) ∨
                   (r = server_error ∧ complete b = true))) ∨
        (∃ date,
           new_Date (default "" (rb_dob b)) = Some date ∧
           r = json (TokenUser (next_oid d) (next_oid d) (default "" (rb_firstName b))
                               ((λ filename, "/uploads/" +:+ filename) <$> file)) ∧
           d' = registered_db b file date d ∧
           complete b = true ∧
           validates (registered_doc b file date) = true ∧
           email_taken d None (toLowerCase (default "" (rb_email b))) = false))
     (λ _, False) d.
Proof.
  unfold post_register. apply wp_try_catch. unfold register_try.
  rewrite register_guard.
  destruct (complete b) eqn:Hc; simpl.
  2:{ apply wp_ret. left. split; [done|]. by left. }
  pose proof Hc as (f & l & g & e & p & dt & pr & -> & Hne)%complete_true.
  simpl in *.
  apply wp_bind, wp_User_create.
  - destruct Hne as (_ & _ & _ & _ & _ & _ & Hpr).
    rewrite (bool_decide_eq_false_2 _ Hpr). simpl.
    intros date Hdate Hv Htaken. apply wp_ret. right. exists date. by split_and!.
  - intros e0. apply wp_ret. left. split; [done|]. by right.
Qed.

(** PUT /api/users/me: either the requester's document is replaced by the
    updated one, which is answered, or nothing is written. *)
Lemma wp_put_users_me_effect id body d :
  wp (put_users_me id body)
     (λ r d',
        (users d !! id = None ∧ d' = d ∧ r = json (SelfBody None)) ∨
        (∃ u, users d !! id = Some u ∧
              (writes_email body u = true →
               email_taken d (Some id) (email (updated body u)) = false) ∧
              d' = updated_db id body u d ∧
              r = json (SelfBody (Some (select_self id (updated body u))))))
     (λ d', d' = d) d.
Proof.
  unfold put_users_me. apply wp_bind, wp_User_findByIdAndUpdate; [| |done].
  - intros Hnone. apply wp_ret. by left.
  - intros u Hu Hmail. apply wp_ret. right. by exists u.
Qed.

Lemma wp_serve_effect rq d :
  wp (serve rq) (λ _ d', serve_effect d rq d') (λ d', serve_effect d rq d') d.
Proof.
  destruct rq as [b file|a|a body|a|a|a now t|a]; simpl.
  - eapply wp_mono; [apply wp_post_register_effect | | done].
    intros r d' [(-> & _)|(date & ? & _ & -> & ? & ? & ?)];
      [constructor | by apply se_register].
  - apply wp_route; [constructor|]. intros id _ _.
    eapply wp_mono; [apply wp_get_users_me_reads | |];
      simpl; intros; subst; constructor.
  - apply wp_route; [constructor|]. intros id -> _.
    eapply wp_mono; [apply wp_put_users_me_effect | |]; simpl.
    + intros r d' [(_ & -> & _)|(u & Hu & Hmail & -> & _)];
        [constructor | by apply se_update].
    + intros d' ->. constructor.
  - apply wp_route; [constructor|]. intros id _ _.
    eapply wp_mono; [apply wp_get_users_reads | |];
      simpl; intros; subst; constructor.
  - apply wp_route; [constructor|]. intros id _ _.
    eapply wp_mono; [apply wp_get_users_all_reads | |];
      simpl; intros; subst; constructor.
  - apply wp_route; [constructor|]. intros id -> Hid.
    eapply wp_mono; [apply wp_post_like_effect | | done].
    intros r d' Heff. by apply se_like.
  - apply wp_route; [constructor|]. intros id _ _.
    eapply wp_mono; [apply wp_get_matches_reads | |];
      simpl; intros; subst; constructor.
Qed.

Lemma after_effect w rq : serve_effect (db w) rq (db (after w rq)).
Proof.
  destruct w as [d o]. unfold after.
  apply (wp_after (serve rq) (λ d', serve_effect d rq d') d o), wp_serve_effect.
Qed.

(** ** What a like touches *)

Lemma half_recorded_lookup_me A B ua d :
  users d !! A = Some ua →
  users (half_recorded A B ua d) !! A =
    Some (if has_id (likes ua) B then ua else set_liked (Some (likes ua ++ [B])) ua).
Proof.
  intros HA. unfold half_recorded, store_path.
  destruct (has_id (likes ua) B); simpl; [done|]. by rewrite lookup_alter_eq, HA.
Qed.

Lemma half_recorded_lookup_other A B ua d id :
  id ≠ A → users (half_recorded A B ua d) !! id = users d !! id.
Proof.
  intros Hne. unfold half_recorded, store_path.
  destruct (has_id (likes ua) B); simpl; [done|]. by rewrite lookup_alter_ne.
Qed.


(** The target of a like is another user, unless the target id is a
    condition that the requester's own id meets. *)
Lemma finds_other rq id now t :
  rq = RecordLike (Bearer id) now t → no_self_target rq →
  ∀ B, finds id t B → id ≠ B.
Proof.
  intros -> Hself B Hf. destruct t as [|x|sel|]; simpl in *; try done.
  - by destruct Hf.
  - intros <-. congruence.
Qed.

(** The documents and records after a like, read off the four shapes of
    [like_effect]. *)
Lemma like_effect_lookups now A t d d' :
  like_effect now A t d d' →
  (∀ id, id ≠ A → ¬ finds A t id → users d' !! id = users d !! id) ∧
  (¬ finds A t A →
   users d' !! A = users d !! A ∨
   ∃ B ua, finds A t B ∧ users d !! A = Some ua ∧ (B ∉ likes ua) ∧
           users d' !! A = Some (set_liked (Some (likes ua ++ [B])) ua)) ∧
  (∀ B, finds A t B → B ≠ A →
        users d' !! B = users d !! B ∨
        ∃ ub, users d !! B = Some ub ∧ (A ∉ likers ub) ∧
              users d' !! B = Some (set_likedBy (Some (likers ub ++ [A])) ub)) ∧
  (matches d' = matches d ∨
   ∃ B, finds A t B ∧ is_Some (users d !! A) ∧ is_Some (users d !! B) ∧
        ¬ paired d A B ∧
        matches d' = matches d ++ [mkMatch (next_oid d) A B now]).
Proof.
  intros Heff.
  assert (∀ B ua, finds A t B → users d !! A = Some ua →
            (Some (if has_id (likes ua) B then ua
                   else set_liked (Some (likes ua ++ [B])) ua) = users d !! A ∨
             ∃ B0 ua0, finds A t B0 ∧ users d !! A = Some ua0 ∧
               (B0 ∉ likes ua0) ∧
               Some (if has_id (likes ua) B then ua
                     else set_liked (Some (likes ua ++ [B])) ua)
               = Some (set_liked (Some (likes ua0 ++ [B0])) ua0))) as Hme.
  { intros B ua Hf HA. destruct (has_id (likes ua) B) eqn:Hh; [by left|].
    right. exists B, ua. split_and!; try done. by apply has_id_false. }
  assert (∀ B ub, users d !! B = Some ub →
            (Some (if has_id (likers ub) A then ub
                   else set_likedBy (Some (likers ub ++ [A])) ub) = users d !! B ∨
             ∃ ub0, users d !! B = Some ub0 ∧ (A ∉ likers ub0) ∧
               Some (if has_id (likers ub) A then ub
                     else set_likedBy (Some (likers ub ++ [A])) ub)
               = Some (set_likedBy (Some (likers ub0 ++ [A])) ub0))) as Htarget.
  { intros B ub HB. destruct (has_id (likers ub) A) eqn:Hh; [by left|].
    right. exists ub. split_and!; try done. by apply has_id_false. }
  destruct Heff as [|B ua ub Hf HA HB|B ua ub Hf HA HB|B ua ub Hf HA HB Hmut Hno].
  - split_and!; auto.
  - split_and!.
    + intros id HidA _. by apply half_recorded_lookup_other.
    + intros _. rewrite (half_recorded_lookup_me A B ua d HA). by apply Hme.
    + intros B' _ HB'. left. by apply half_recorded_lookup_other.
    + left. apply half_recorded_matches.
  - split_and!.
    + intros id HidA Hid. apply recorded_lookup_other; [done|]. by intros ->.
    + intros Hself. assert (A ≠ B) as Hne by (by intros ->).
      rewrite (recorded_lookup_me A B ua ub d Hne HA). by apply Hme.
    + intros B' Hf' HB'. destruct (decide (B' = B)) as [->|Hother].
      * rewrite (recorded_lookup_target A B ua ub d ltac:(done) HB).
        by apply Htarget.
      * left. by apply recorded_lookup_other.
    + left. apply recorded_matches.
  - simpl. split_and!.
    + intros id HidA Hid. apply recorded_lookup_other; [done|]. by intros ->.
    + intros Hself. assert (A ≠ B) as Hne by (by intros ->).
      rewrite (recorded_lookup_me A B ua ub d Hne HA). by apply Hme.
    + intros B' Hf' HB'. destruct (decide (B' = B)) as [->|Hother].
      * rewrite (recorded_lookup_target A B ua ub d ltac:(done) HB).
        by apply Htarget.
      * left. by apply recorded_lookup_other.
    + right. exists B. split_and!; try done; by eexists.
Qed.

(** X9. Whatever the persistence layer does, POST /api/like from A
    with body field t answers, and afterwards: every document other than
    A's and the target's is as before; A's document is as before or has the
    target appended to its liked array (and nothing else changed), which
    happens only if the target was absent from it; the target's document is
    as before or has A appended to its likedBy array, only if A was absent
    from it; the Match records are as before or have one record (A, target,
    now) appended, only if both users exist and had no Match record.  The
    target is the user whose id the body field is the string form of,
    another user than A, or a user that meets the condition the body field
    is; what is said of A's document holds unless that condition can
    select A. *)
Theorem like_touches_only_the_pair now A t w :
  (∃ r, (post_like now A t w).1 = Normal r) ∧
  (∀ id, id ≠ A → ¬ finds A t id →
     users (db (post_like now A t w).2) !! id = users (db w) !! id) ∧
  (¬ finds A t A →
   users (db (post_like now A t w).2) !! A = users (db w) !! A ∨
   ∃ B ua, finds A t B ∧ users (db w) !! A = Some ua ∧ (B ∉ likes ua) ∧
           users (db (post_like now A t w).2) !! A
           = Some (set_liked (Some (likes ua ++ [B])) ua)) ∧
  (∀ B, finds A t B → B ≠ A →
        users (db (post_like now A t w).2) !! B = users (db w) !! B ∨
        ∃ ub, users (db w) !! B = Some ub ∧ (A ∉ likers ub) ∧
              users (db (post_like now A t w).2) !! B
              = Some (set_likedBy (Some (likers ub ++ [A])) ub)) ∧
  (matches (db (post_like now A t w).2) = matches (db w) ∨
   ∃ B, finds A t B ∧
        is_Some (users (db w) !! A) ∧ is_Some (users (db w) !! B) ∧
        ¬ paired (db w) A B ∧
        matches (db (post_like now A t w).2)
        = matches (db w) ++ [mkMatch (next_oid (db w)) A B now]).
Proof.
  destruct (post_like_effect now A t w) as [Hr Heff].
  split; [exact Hr|]. by apply like_effect_lookups.
Qed.

(** ** Nothing is ever removed *)

Lemma grows_refl d : grows d d.
Proof. by split. Qed.

Lemma grows_insert d id u ms n :
  matches d `prefix_of` ms →
  grows d (mkDb (<[id := u]> (users d)) ms n).
Proof.
  intros Hms. split; [|done]. intros k Hk. simpl.
  rewrite lookup_insert. by case_decide.
Qed.

Lemma like_effect_grows now A t d d' : like_effect now A t d d' → grows d d'.
Proof.
  intros [|B ua ub _ _ _|B ua ub _ _ _|B ua ub _ _ _ _ _]; split; simpl.
  - done.
  - done.
  - intros id. by rewrite half_recorded_is_Some.
  - by rewrite half_recorded_matches.
  - intros id. by rewrite recorded_is_Some.
  - by rewrite recorded_matches.
  - intros id. by rewrite recorded_is_Some.
  - by apply prefix_app_r.
Qed.

Lemma serve_effect_grows d rq d' : serve_effect d rq d' → grows d d'.
Proof.
  intros [rq'|b file date _ _ _ _|id body u _ _|id now t d'' _ Hlike].
  - apply grows_refl.
  - by apply grows_insert.
  - by apply grows_insert.
  - by eapply like_effect_grows.
Qed.

(** X12. No request, whatever the persistence layer does, removes a
    user document or a Match record: every stored id is still stored
    afterwards, and the Match records after the request start with the
    Match records before it, unchanged and in place. *)
Theorem nothing_is_removed w rq :
  (∀ id, is_Some (users (db w) !! id) → is_Some (users (db (after w rq)) !! id)) ∧
  matches (db w) `prefix_of` matches (db (after w rq)).
Proof. apply (serve_effect_grows (db w) rq), after_effect. Qed.

(** ** Match records stay well formed *)

Lemma match_count_app d a b us m n :
  match_count (mkDb us (matches d ++ [m]) n) a b
  = match_count d a b + (if pairs a b m then 1 else 0).
Proof.
  unfold match_count. simpl. rewrite filter_app, length_app. f_equal.
  destruct (pairs a b m) eqn:Hp.
  - by rewrite filter_cons_True.
  - rewrite filter_cons_False; [done|]. by rewrite Hp.
Qed.

Lemma pairs_true a b m :
  pairs a b m = true ↔ (userA m = a ∧ userB m = b) ∨ (userA m = b ∧ userB m = a).
Proof. unfold pairs. by rewrite orb_true_iff, !bool_decide_eq_true. Qed.

Lemma matches_ok_same_matches d d' :
  matches d' = matches d → grows d d' → matches_ok d → matches_ok d'.
Proof.
  intros Hms [Hdom _] [Hends Hcount]. split.
  - intros m. rewrite Hms. intros (? & ? & ?)%Hends. auto.
  - intros a b. specialize (Hcount a b). unfold match_count in *. by rewrite Hms.
Qed.

Lemma like_effect_matches_ok now A t d d' :
  (∀ B, finds A t B → A ≠ B) →
  like_effect now A t d d' → matches_ok d → matches_ok d'.
Proof.
  intros Hother Heff Hok. pose proof (like_effect_grows _ _ _ _ _ Heff) as Hgrows.
  apply like_effect_lookups in Heff as (_ & _ & _ & Hms).
  destruct Hms as [Hms|(B & Hf & HA & HB & Hno & Hms)];
    [by apply (matches_ok_same_matches d)|].
  pose proof (Hother B Hf) as Hne.
  destruct Hok as [Hends Hcount], Hgrows as [Hdom _]. split.
  - intros m. rewrite Hms.
    intros [(? & ? & ?)%Hends| ->%list_elem_of_singleton]%elem_of_app; simpl; auto.
  - intros a b.
    assert (match_count d' a b
            = match_count (mkDb (users d') (matches d ++ [mkMatch (next_oid d) A B now])
                                (next_oid d')) a b) as ->
      by (unfold match_count; simpl; by rewrite Hms).
    rewrite match_count_app. specialize (Hcount a b).
    destruct (pairs a b (mkMatch (next_oid d) A B now)) eqn:Hp; [|lia].
    assert (¬ paired d a b) as Hnab.
    { apply pairs_true in Hp as [[<- <-]|[<- <-]]; simpl; [done|].
      by rewrite paired_sym. }
    rewrite (match_count_unpaired d a b Hnab). lia.
Qed.

Lemma serve_effect_matches_ok d rq d' :
  no_self_target rq →
  serve_effect d rq d' → matches_ok d → matches_ok d'.
Proof.
  intros Hself Heff Hok. pose proof (serve_effect_grows _ _ _ Heff) as Hgrows.
  revert Hself.
  destruct Heff as [rq'|b file date _ _ _ _|id body u _ _|id now t d'' _ Hlike];
    intros Hself; [done|by apply (matches_ok_same_matches d)..|].
  eapply like_effect_matches_ok; [|done..].
  exact (finds_other _ id now t eq_refl Hself).
Qed.

(** X11. In every state the service reaches from an empty database
    by requests served one at a time (arbitrary profile updates included)
    and under any outage schedule, every Match record pairs two distinct
    stored users and no two Match records pair the same two users, in
    either slot order, provided no like carries a target id that is a
    condition the requester's own id meets. *)
Theorem matches_stay_well_formed w :
  reachable no_self_target w → matches_ok (db w).
Proof.
  induction 1 as [o|w rq _ IH Hself].
  - split; simpl.
    + intros m Hm. by apply elem_of_nil in Hm.
    + intros a b. unfold match_count. simpl. lia.
  - eapply serve_effect_matches_ok; [done | apply after_effect | done].
Qed.

(** ** Emails stay keys *)

Lemma email_taken_false d self e :
  email_taken d self e = false ↔
  ∀ k u, users d !! k = Some u → Some k ≠ self → email u ≠ e.
Proof.
  unfold email_taken. rewrite bool_decide_eq_false, Exists_exists. split.
  - intros Hno k u Hu Hself He. apply Hno. exists (k, u).
    split; [by apply elem_of_map_to_list|done].
  - intros Hall ([k u] & Hin%elem_of_map_to_list & Hself & He).
    by apply (Hall k u).
Qed.

Lemma emails_unique_insert d id u' :
  emails_unique d →
  (∀ k u, users d !! k = Some u → k ≠ id → email u ≠ email u') →
  ∀ ms n, emails_unique (mkDb (<[id := u']> (users d)) ms n).
Proof.
  intros Huniq Hfree ms n i j ui uj. simpl. rewrite !lookup_insert.
  repeat case_decide; subst.
  - done.
  - intros [= <-] Hj He. symmetry in He. by destruct (Hfree j uj Hj).
  - intros Hi [= <-] He. by destruct (Hfree i ui Hi).
  - apply Huniq.
Qed.

(** A save leaves every path but the modified one as stored. *)
Lemma store_path_email id p doc d k u' :
  users (store_path id p doc d) !! k = Some u' →
  ∃ u, users d !! k = Some u ∧ email u' = email u.
Proof.
  unfold store_path. simpl. rewrite lookup_alter. case_decide as Hk; [|by eauto].
  subst k. destruct (users d !! id) as [u|]; simpl; [|done].
  intros [= <-]. exists u. by destruct p.
Qed.

Lemma half_recorded_email A B ua d k u' :
  users (half_recorded A B ua d) !! k = Some u' →
  ∃ u, users d !! k = Some u ∧ email u' = email u.
Proof.
  unfold half_recorded. case_match; [by eauto|]. apply store_path_email.
Qed.

Lemma recorded_email A B ua ub d k u' :
  users (recorded A B ua ub d) !! k = Some u' →
  ∃ u, users d !! k = Some u ∧ email u' = email u.
Proof.
  unfold recorded. case_match; [apply half_recorded_email|].
  intros (u1 & Hu1 & He1)%store_path_email.
  apply half_recorded_email in Hu1 as (u & Hu & He). exists u. split; congruence.
Qed.

Lemma like_effect_emails now A t d d' :
  like_effect now A t d d' →
  ∀ id u', users d' !! id = Some u' →
           ∃ u, users d !! id = Some u ∧ email u' = email u.
Proof.
  intros [|B ua ub _ _ _|B ua ub _ _ _|B ua ub _ _ _ _ _] id u'; simpl.
  - eauto.
  - apply half_recorded_email.
  - apply recorded_email.
  - apply recorded_email.
Qed.

Lemma serve_effect_emails_unique d rq d' :
  serve_effect d rq d' → emails_unique d → emails_unique d'.
Proof.
  intros [rq'|b file date _ _ _ Htaken|id body u Hu Hmail|id now t d'' _ Hlike] Huniq.
  - done.
  - apply emails_unique_insert; [done|]. intros k u Hu _. simpl.
    rewrite email_taken_false in Htaken. by apply (Htaken k u Hu).
  - apply emails_unique_insert; [done|]. intros k u0 Hu0 Hk.
    destruct (writes_email body u) eqn:Hw.
    + specialize (Hmail eq_refl). rewrite email_taken_false in Hmail.
      apply (Hmail k u0 Hu0). congruence.
    + assert (email (updated body u) = email u) as ->.
      { destruct body as [ups|f|]; simpl in *; [| |done].
        - apply bool_decide_eq_false in Hw.
          destruct (up_email ups) as [e|]; [|done]. destruct Hw. by eexists.
        - apply negb_false_iff, bool_decide_eq_true in Hw. done. }
      intros Heq. apply Hk. by apply (Huniq k id u0 u).
  - intros i j ui uj Hi Hj He.
    destruct (like_effect_emails _ _ _ _ _ Hlike i ui Hi) as (ui0 & Hi0 & Hei).
    destruct (like_effect_emails _ _ _ _ _ Hlike j uj Hj) as (uj0 & Hj0 & Hej).
    apply (Huniq i j ui0 uj0 Hi0 Hj0). congruence.
Qed.

(** X17. In every state the service reaches from an empty database,
    by any requests served one at a time and under any outage schedule, no
    two stored users have the same email: registration and profile updates
    go through the unique index, and a like writes no email. *)
Theorem emails_stay_unique w :
  reachable any_request w → emails_unique (db w).
Proof.
  induction 1 as [o|w rq _ IH _].
  - intros i j ui uj Hi. simpl in Hi. by rewrite lookup_empty in Hi.
  - eapply serve_effect_emails_unique; [apply after_effect | done].
Qed.

(** ** The invariant of the relation arrays *)

Lemma users_ok_insert d id u ms n :
  users_ok d → relations_ok id u →
  users_ok (mkDb (<[id := u]> (users d)) ms n).
Proof.
  intros Hok Hu id' u'. simpl. rewrite lookup_insert.
  case_decide as Hid; [intros [= <-]; by subst | apply Hok].
Qed.

Lemma relations_ok_like A B me :
  A ≠ B → relations_ok A me → has_id (likes me) B = false →
  relations_ok A (set_liked (Some (likes me ++ [B])) me).
Proof.
  intros Hne (H1 & H2 & H3 & H4) Hin. apply has_id_false in Hin.
  unfold relations_ok, likes, likers in *. simpl. split_and!; [| |done|done].
  - rewrite elem_of_app, list_elem_of_singleton. intros [?|?]; done.
  - apply NoDup_app. split_and!; [done| |apply NoDup_singleton].
    intros x Hx ->%list_elem_of_singleton. done.
Qed.

Lemma relations_ok_liked_by A B target :
  A ≠ B → relations_ok B target → has_id (likers target) A = false →
  relations_ok B (set_likedBy (Some (likers target ++ [A])) target).
Proof.
  intros Hne (H1 & H2 & H3 & H4) Hin. apply has_id_false in Hin.
  unfold relations_ok, likes, likers in *. simpl. split_and!; [done|done| |].
  - rewrite elem_of_app, list_elem_of_singleton. intros [?|?]; done.
  - apply NoDup_app. split_and!; [done| |apply NoDup_singleton].
    intros x Hx ->%list_elem_of_singleton. done.
Qed.

Lemma users_ok_half_recorded A B ua d :
  A ≠ B → users d !! A = Some ua → users_ok d → users_ok (half_recorded A B ua d).
Proof.
  intros Hne HA Hok id u'.
  destruct (decide (id = A)) as [->|Hid].
  - rewrite (half_recorded_lookup_me A B ua d HA). intros [= <-].
    destruct (has_id (likes ua) B) eqn:Hh; [by apply Hok|].
    apply relations_ok_like; [done| |done]. by apply Hok.
  - rewrite half_recorded_lookup_other by done. apply Hok.
Qed.

Lemma users_ok_recorded A B ua ub d :
  A ≠ B → users d !! A = Some ua → users d !! B = Some ub →
  users_ok d → users_ok (recorded A B ua ub d).
Proof.
  intros Hne HA HB Hok id u'.
  destruct (decide (id = A)) as [->|HidA]; [|destruct (decide (id = B)) as [->|HidB]].
  - rewrite (recorded_lookup_me A B ua ub d Hne HA). intros [= <-].
    destruct (has_id (likes ua) B) eqn:Hh; [by apply Hok|].
    apply relations_ok_like; [done| |done]. by apply Hok.
  - rewrite (recorded_lookup_target A B ua ub d Hne HB). intros [= <-].
    destruct (has_id (likers ub) A) eqn:Hh; [by apply Hok|].
    apply relations_ok_liked_by; [done| |done]. by apply Hok.
  - rewrite recorded_lookup_other by done. apply Hok.
Qed.

Lemma like_effect_users_ok now A t d d' :
  (∀ B, finds A t B → A ≠ B) →
  like_effect now A t d d' → users_ok d → users_ok d'.
Proof.
  intros Hother [|B ua ub Hf HA HB|B ua ub Hf HA HB|B ua ub Hf HA HB _ _] Hok.
  - done.
  - apply users_ok_half_recorded; auto.
  - apply users_ok_recorded; auto.
  - intros id u'. simpl. by apply (users_ok_recorded A B ua ub d); auto.
Qed.

Lemma relations_ok_update id ups u :
  relations_clean id ups → relations_ok id u →
  relations_ok id (apply_updates ups u).
Proof.
  intros [Hl Hlb] (H1 & H2 & H3 & H4).
  assert ((id ∉ likes (apply_updates ups u)) ∧ NoDup (likes (apply_updates ups u))) as [??].
  { unfold likes in *. simpl.
    destruct (up_liked ups) as [[l|]|] eqn:Hup; simpl.
    - by apply Hl.
    - split; [apply not_elem_of_nil | apply NoDup_nil_2].
    - done. }
  assert ((id ∉ likers (apply_updates ups u)) ∧ NoDup (likers (apply_updates ups u))) as [??].
  { unfold likers in *. simpl.
    destruct (up_likedBy ups) as [[l|]|] eqn:Hup; simpl.
    - by apply Hlb.
    - split; [apply not_elem_of_nil | apply NoDup_nil_2].
    - done. }
  done.
Qed.

Lemma serve_effect_users_ok d rq d' :
  clean_request rq → serve_effect d rq d' → users_ok d → users_ok d'.
Proof.
  intros Hclean Heff Hok. revert Hclean.
  destruct Heff as [rq'|b file date _ _ _ _|id body u Hu _|id now t d'' _ Hlike];
    intros Hclean.
  - done.
  - apply users_ok_insert; [done|].
    unfold relations_ok, likes, likers. simpl.
    split_and!; try apply NoDup_nil_2; apply not_elem_of_nil.
  - apply users_ok_insert; [done|].
    destruct body as [ups|f|]; simpl in *.
    + apply relations_ok_update; [done|]. by apply Hok.
    + apply Hclean. by apply Hok.
    + by apply Hok.
  - eapply like_effect_users_ok; [|done..].
    exact (finds_other _ id now t eq_refl Hclean).
Qed.

(** C3, amended.  In every state the service reaches from an
    empty database by requests served one at a time (registrations, likes,
    profile updates, listings, under any outage schedule), no user's liked
    or likedBy array holds the user's own id or a duplicate, provided no
    profile update, by plain fields or by update operators, leaves the
    updating user's liked or likedBy array with the user's own id or a
    duplicate, and no like carries a target id that is a condition the
    requester's own id meets. *)
Theorem clean_requests_keep_relations_ok w :
  reachable clean_request w → users_ok (db w).
Proof.
  induction 1 as [o|w rq _ IH Hclean].
  - intros id u. simpl. by rewrite lookup_empty.
  - eapply serve_effect_users_ok; [done | apply after_effect | done].
Qed.

(** ** GET /api/users *)

Lemma wp_get_users U d Q E :
  (∀ me, users d !! U = Some me →
     Q (json (UsersBody ((λ kv, select_public kv.1 kv.2) <$>
          candidates_of d (excluded_ids U me) (genre_filter me)))) d) →
  E d →
  wp (get_users U) Q E d.
Proof.
  intros HQ HE. unfold get_users.
  apply wp_bind, wp_User_findById; [|done].
  apply wp_bind, wp_deref; [|done]. intros me Hme.
  apply wp_bind, wp_User_find; [|done]. apply wp_ret.
  by apply HQ.
Qed.

Lemma get_users_quiet U d me :
  users d !! U = Some me →
  get_users U (quiet d) =
  (Normal (json (UsersBody ((λ kv, select_public kv.1 kv.2) <$>
      candidates_of d (excluded_ids U me) (genre_filter me)))), quiet d).
Proof.
  intros Hme. unfold get_users, User_find. run_handler. by rewrite Hme.
Qed.

Lemma get_users_answer U w me r w' :
  users (db w) !! U = Some me →
  get_users U w = (Normal r, w') →
  r = json (UsersBody ((λ kv, select_public kv.1 kv.2) <$>
        candidates_of (db w) (excluded_ids U me) (genre_filter me))).
Proof.
  intros Hme Hrun. destruct w as [d o]. simpl in *.
  pose proof (wp_get_users U d
    (λ r _, r = json (UsersBody ((λ kv, select_public kv.1 kv.2) <$>
        candidates_of d (excluded_ids U me) (genre_filter me))))
    (λ _, True)) as H.
  specialize (H ltac:(intros me' Hme'; congruence) I o).
  by rewrite Hrun in H.
Qed.

Lemma candidates_of_elem d excluded g kv :
  kv ∈ candidates_of d excluded g →
  users d !! kv.1 = Some kv.2 ∧ (kv.1 ∉ excluded) ∧
  match g with Some g => genre kv.2 = g | None => True end.
Proof.
  unfold candidates_of. intros Hin%subseteq_take.
  apply list_elem_of_filter in Hin as [[Hex Hg] Hin].
  destruct kv as [k v]. by apply elem_of_map_to_list in Hin.
Qed.

Lemma candidates_of_length d excluded g : length (candidates_of d excluded g) ≤ 50.
Proof. unfold candidates_of. rewrite length_take. lia. Qed.

(** C5. For an existing user U: with a responsive persistence layer
    GET /api/users answers a users listing; whenever it answers, the
    listing has at most 50 entries, none of them is U and none is an id in
    U's liked array; and when U has liked nobody the exclusion list of the
    query is just U's own id. *)
Theorem candidates_exclude_self_and_liked w U me :
  users (db w) !! U = Some me →
  (outages w = [] → ∃ cs, get_users U w = (Normal (json (UsersBody cs)), w)) ∧
  (∀ r w', get_users U w = (Normal r, w') →
     ∃ cs, r = json (UsersBody cs) ∧ length cs ≤ 50 ∧
           ∀ c, c ∈ cs → pu_id c ≠ U ∧ (pu_id c ∉ likes me)) ∧
  (likes me = [] → excluded_ids U me = [U]).
Proof.
  intros Hme. split_and!.
  - destruct w as [d o]. simpl in *. intros ->.
    eexists. by apply get_users_quiet.
  - intros r w' Hrun. eexists. split; [by eapply get_users_answer|].
    split; [rewrite length_fmap; apply candidates_of_length|].
    intros c (kv & -> & Hkv)%list_elem_of_fmap.
    apply candidates_of_elem in Hkv as (_ & Hex & _).
    unfold excluded_ids in Hex.
    rewrite not_elem_of_cons in Hex. by destruct Hex.
  - unfold excluded_ids. by intros ->.
Qed.

(** ** The genre conjunct of the candidates query *)

Lemma genre_filter_None me :
  genre_filter me = None ↔
  preference me = Some "all" ∨ preference me = None ∨ preference me = Some "".
Proof.
  unfold genre_filter, truthy.
  destruct (preference me) as [p|]; simpl; [|by split; auto].
  repeat case_bool_decide; simpl; intuition congruence.
Qed.

Lemma genre_filter_Some me g :
  genre_filter me = Some g ↔ preference me = Some g ∧ g ≠ "all" ∧ g ≠ "".
Proof.
  unfold genre_filter, truthy.
  destruct (preference me) as [p|]; simpl; [|by split; [|intros [? _]]].
  repeat case_bool_decide; simpl; intuition congruence.
Qed.

(** C4, amended.  GET /api/users, whenever it answers an existing
    requester, lists the first 50 users outside the exclusion list whose
    genre equals the requester's preference, and the genre conjunct is
    left out exactly when the preference is "all" or is empty or absent;
    then users of any genre are listed. *)
Theorem candidates_genre_filter w U me :
  users (db w) !! U = Some me →
  (genre_filter me = None ↔
     preference me = Some "all" ∨ preference me = None ∨ preference me = Some "") ∧
  (∀ r w', get_users U w = (Normal r, w') →
     ∃ cs, r = json (UsersBody ((λ kv, select_public kv.1 kv.2) <$> cs)) ∧
       (∀ g, genre_filter me = Some g →
          preference me = Some g ∧
          cs = take 50 (filter (λ kv : nat * User,
                                  (kv.1 ∉ excluded_ids U me) ∧ genre kv.2 = g)
                               (map_to_list (users (db w))))) ∧
       (genre_filter me = None →
          cs = take 50 (filter (λ kv : nat * User, kv.1 ∉ excluded_ids U me)
                               (map_to_list (users (db w)))))).
Proof.
  intros Hme. split; [apply genre_filter_None|].
  intros r w' Hrun.
  exists (candidates_of (db w) (excluded_ids U me) (genre_filter me)).
  split; [by eapply get_users_answer|]. unfold candidates_of. split.
  - intros g Hg. rewrite Hg. split; [by apply genre_filter_Some in Hg as [? _]|].
    f_equal.
  - intros ->. f_equal. apply list_filter_iff.
    intros kv. unfold query_sat. simpl. split; [by intros [? _] | done].
Qed.

(** ** GET /api/matches *)

#[export] Instance newest_first_transitive : Transitive newest_first.
Proof. intros m1 m2 m3. unfold newest_first. lia. Qed.

#[export] Instance newest_first_total : Total newest_first.
Proof. intros m1 m2. unfold newest_first. lia. Qed.

Lemma involves_true U m : involves U m = true ↔ userA m = U ∨ userB m = U.
Proof.
  unfold involves. rewrite orb_true_iff, !bool_decide_eq_true. done.
Qed.

Lemma wp_get_matches U d Q E :
  Q (json (MatchesBody (populated d <$>
       merge_sort newest_first (filter (λ m, involves U m = true) (matches d))))) d →
  E d →
  wp (get_matches U) Q E d.
Proof.
  intros HQ HE. unfold get_matches.
  apply wp_bind, wp_Match_find_sorted; [|done].
  apply wp_bind, wp_populate_both; [|done]. by apply wp_ret.
Qed.

Lemma get_matches_quiet U d :
  get_matches U (quiet d) =
  (Normal (json (MatchesBody (populated d <$>
     merge_sort newest_first (filter (λ m, involves U m = true) (matches d))))),
   quiet d).
Proof. unfold get_matches, Match_find_sorted, populate_both. by run_handler. Qed.

Lemma populated_counterpart d m :
  pm_id (populated d m) = m_id m ∧
  pm_createdAt (populated d m) = createdAt m ∧
  (∀ u, users d !! userA m = Some u →
        pm_userA (populated d m)
        = Some (mkProfile (userA m) (firstName u) (lastName u) (avatar u))) ∧
  (∀ u, users d !! userB m = Some u →
        pm_userB (populated d m)
        = Some (mkProfile (userB m) (firstName u) (lastName u) (avatar u))).
Proof.
  split_and!; [done|done| |]; intros u Hu; simpl; unfold profile_of; by rewrite Hu.
Qed.

(** C8. For every user U: with a responsive persistence layer
    GET /api/matches answers a matches listing; whenever it answers, the
    listing is the expansion of exactly the Match records with U in the
    userA or the userB slot (each once, none else), ordered so that every
    entry is at least as recent as all entries after it; and an expanded
    record keeps its id and creation time and carries, in each slot, the
    stored user's id, first name, last name and avatar, so in particular
    those of U's counterpart. *)
Theorem matches_listing w U :
  (outages w = [] → ∃ ms, get_matches U w = (Normal (json (MatchesBody ms)), w)) ∧
  (∀ r w', get_matches U w = (Normal r, w') →
     ∃ found,
       r = json (MatchesBody (populated (db w) <$> found)) ∧
       found ≡ₚ filter (λ m, userA m = U ∨ userB m = U) (matches (db w)) ∧
       (∀ m, m ∈ matches (db w) → userA m = U ∨ userB m = U →
             populated (db w) m ∈ populated (db w) <$> found) ∧
       StronglySorted newest_first_populated (populated (db w) <$> found)) ∧
  (∀ m,
     pm_id (populated (db w) m) = m_id m ∧
     pm_createdAt (populated (db w) m) = createdAt m ∧
     (∀ u, users (db w) !! userA m = Some u →
           pm_userA (populated (db w) m)
           = Some (mkProfile (userA m) (firstName u) (lastName u) (avatar u))) ∧
     (∀ u, users (db w) !! userB m = Some u →
           pm_userB (populated (db w) m)
           = Some (mkProfile (userB m) (firstName u) (lastName u) (avatar u)))).
Proof.
  destruct w as [d o]. simpl. split_and!.
  - intros ->. eexists. apply get_matches_quiet.
  - intros r w' Hrun.
    exists (merge_sort newest_first (filter (λ m, involves U m = true) (matches d))).
    assert (merge_sort newest_first (filter (λ m, involves U m = true) (matches d))
            ≡ₚ filter (λ m, userA m = U ∨ userB m = U) (matches d)) as Hperm.
    { rewrite merge_sort_Permutation.
      erewrite list_filter_iff; [done|]. intros m. apply involves_true. }
    split_and!.
    + pose proof (wp_get_matches U d
        (λ r _, r = json (MatchesBody (populated d <$>
           merge_sort newest_first (filter (λ m, involves U m = true) (matches d)))))
        (λ _, True) eq_refl I o) as H.
      by rewrite Hrun in H.
    + done.
    + intros m Hm HU. apply list_elem_of_fmap_2. rewrite Hperm.
      by apply list_elem_of_filter.
    + eapply StronglySorted_fmap; [|apply StronglySorted_merge_sort; apply _].
      by intros m1 m2.
  - intros m. apply populated_counterpart.
Qed.

(** ** Handlers with and without a [try] *)

(** The handlers written with a [try] always answer. *)
Lemma guarded_handlers_answer d :
  (∀ now A t, wp (post_like now A t) (λ _ _, True) (λ _, False) d) ∧
  (∀ b file, wp (post_register b file) (λ _ _, True) (λ _, False) d) ∧
  (∀ U, wp (get_users_all U) (λ _ _, True) (λ _, False) d).
Proof.
  split_and!.
  - intros now A t. eapply wp_mono; [apply wp_post_like_validation| |]; done.
  - intros b file. unfold post_register. apply wp_try_catch.
    eapply wp_mono with (Q := λ _ _, True) (E := λ _, True);
      [|done|intros d' _ e; by apply wp_ret].
    unfold register_try. case_match; [by apply wp_ret|].
    apply wp_bind, wp_User_create; [|done]. intros dt _ _ _. by apply wp_ret.
  - intros U. unfold get_users_all. apply wp_try_catch, wp_bind, wp_User_find.
    + by apply wp_ret.
    + intros e. by apply wp_ret.
Qed.

(** ** Normal operation keeps Match records and likes in step *)

Lemma route_quiet a handler d :
  route a handler (quiet d) =
  match a with
  | NoHeader => (Normal (status_json 401 (Message "No token")), quiet d)
  | BadToken => (Normal (status_json 401 (Message "Invalid token")), quiet d)
  | Bearer id =>
    match users d !! id with
    | Some _ => handler id (quiet d)
    | None => (Normal (status_json 401 (Message "User not found")), quiet d)
    end
  end.
Proof.
  destruct a as [| |id]; try reflexivity.
  unfold route, auth. run_handler. by destruct (users d !! id).
Qed.

(** Past validation, a like is the like of the user that was found. *)
Lemma post_like_found now A t B ua ub d :
  users d !! A = Some ua → equals A t = false → found d t = Some (B, ub) →
  post_like now A t (quiet d)
  = try_catch (like_record now A B ua ub) (λ _, ret server_error) (quiet d).
Proof.
  intros HA Heq Hfound. unfold post_like. unfold try_catch at 1.
  rewrite (like_try_quiet now A t ua d HA), Heq.
  destruct t as [|id|sel|]; simpl in *; try done; by rewrite Hfound.
Qed.

Lemma post_like_quiet_effect now A t d :
  schema_ok d → (∀ B, finds A t B → A ≠ B) →
  ∃ c d', post_like now A t (quiet d) = (c, quiet d') ∧ effect d d'.
Proof.
  intros Hvalid Hother.
  destruct (users d !! A) as [ua|] eqn:HA.
  2:{ exists (Normal (if falsy t then InvalidInput else server_error)), d.
      split; [|constructor].
      unfold post_like, like_try. run_handler. rewrite HA. by destruct t. }
  destruct (falsy t) eqn:Hfalsy.
  { exists (Normal InvalidInput), d. split; [|constructor].
    unfold post_like, try_catch. by rewrite (like_try_quiet now A t ua d HA), Hfalsy. }
  destruct (equals A t) eqn:Heq.
  { exists (Normal SelfLikeRejected), d. split; [|constructor].
    unfold post_like, try_catch.
    by rewrite (like_try_quiet now A t ua d HA), Hfalsy, Heq. }
  destruct (found d t) as [[B ub]|] eqn:Hfound.
  - destruct (found_Some A t d B ub Heq Hfound) as [Hf HB].
    pose proof (Hother B Hf) as Hne.
    rewrite (post_like_found now A t B ua ub d HA Heq Hfound).
    assert (equals A (IdString B) = false) as Heq'
      by (simpl; by rewrite bool_decide_eq_false_2).
    assert (found d (IdString B) = Some (B, ub)) as Hfound'
      by (simpl; by rewrite HB).
    rewrite <- (post_like_found now A (IdString B) B ua ub d HA Heq' Hfound').
    destruct (post_like_quiet_cases now A B ua ub d HA Hne HB
                ltac:(by eapply Hvalid) ltac:(by eapply Hvalid))
      as [(Hmut & _ & ->)|(_ & ->)]; do 2 eexists; (split; [done|]).
    + by apply eff_match.
    + by apply eff_like.
  - exists (Normal (match t with NotAnId => server_error | _ => NotFound end)), d.
    split; [|constructor].
    unfold post_like, try_catch.
    rewrite (like_try_quiet now A t ua d HA), Hfalsy, Heq.
    destruct t; simpl in *; try done; by rewrite Hfound.
Qed.

Lemma post_register_quiet_effect b file d :
  ∃ c d', post_register b file (quiet d) = (c, quiet d') ∧ effect d d'.
Proof.
  unfold post_register, register_try.
  destruct (_ || _); [by exists (Normal (status_json 400 (Message "Missing fields"))), d;
                      split; [|constructor]|].
  unfold User_create.
  destruct (new_Date _) as [date|];
    [|by exists (Normal server_error), d; split; [|constructor]].
  destruct (validates _) eqn:Hv;
    [|by exists (Normal server_error), d; split; [|constructor]].
  run_handler.
  destruct (email_taken d None _);
    [by exists (Normal server_error), d; split; [|constructor]|].
  simpl. do 2 eexists. split; [done|]. by apply eff_register.
Qed.

Lemma put_users_me_quiet_effect id body d :
  (∀ u, likes (updated body u) = likes u ∧ likers (updated body u) = likers u ∧
        (validates u = true → validates (updated body u) = true)) →
  schema_ok d →
  ∃ c d', put_users_me id body (quiet d) = (c, quiet d') ∧ effect d d'.
Proof.
  intros Hbody Hvalid.
  assert (∃ c d',
    (user ← (round_trip ;;
             d ← get_db;
             match users d !! id with
             | None => ret None
             | Some u =>
               let u' := updated body u in
               if writes_email body u && email_taken d (Some id) (email u')
               then throw DuplicateKey
               else put_db (set_users (<[id := u']> (users d)) d) ;; ret (Some u')
             end);
     ret (json (SelfBody (select_self id <$> user)))) (quiet d) = (c, quiet d') ∧
    effect d d') as Hrun.
  { run_handler.
    destruct (users d !! id) as [u|] eqn:Hu; simpl;
      [|by do 2 eexists; split; [|constructor]].
    destruct (_ && _); simpl; [by do 2 eexists; split; [|constructor]|].
    destruct (Hbody u) as (Hl & Hlb & Hv).
    do 2 eexists. split; [done|]. eapply eff_update; [done..|].
    apply Hv. by eapply Hvalid. }
  unfold put_users_me, User_findByIdAndUpdate.
  destruct body; [exact Hrun | exact Hrun |].
  by exists (Abrupt CastError), d; split; [|constructor].
Qed.

Lemma serve_quiet_effect rq d :
  normal_request rq → schema_ok d →
  ∃ c d', serve rq (quiet d) = (c, quiet d') ∧ effect d d'.
Proof.
  intros Hnormal Hvalid.
  destruct rq as [b file|a|a body|a|a|a now t|a]; simpl;
    [apply post_register_quiet_effect|rewrite route_quiet..];
    (destruct a as [| |id]; [by do 2 eexists; split; [|constructor]..|]);
    (destruct (users d !! id) as [u|] eqn:Hu;
       [|by do 2 eexists; split; [|constructor]]).
  - exists (Normal (json (SelfBody (Some (select_self id u))))), d.
    split; [|constructor]. unfold get_users_me. run_handler. by rewrite Hu.
  - by apply put_users_me_quiet_effect.
  - rewrite (get_users_quiet id d u Hu). do 2 eexists. split; [done|constructor].
  - do 2 eexists. split; [|constructor].
    unfold get_users_all, User_find. by run_handler.
  - apply post_like_quiet_effect; [done|].
    exact (finds_other _ id now t eq_refl Hnormal).
  - rewrite get_matches_quiet. do 2 eexists. split; [done|constructor].
Qed.

Lemma recorded_lookup_inv A B ua ub d a u' :
  A ≠ B → users d !! A = Some ua → users d !! B = Some ub →
  users (recorded A B ua ub d) !! a = Some u' →
  ∃ u, users d !! a = Some u ∧
       (∀ x, x ∈ likes u → x ∈ likes u') ∧
       (∀ x, x ∈ likers u → x ∈ likers u') ∧
       (∀ x, x ∈ likes u' → x ∈ likes u ∨ (a = A ∧ x = B)) ∧
       validates u' = validates u.
Proof.
  intros Hne HA HB Hu'.
  destruct (decide (a = A)) as [->|HaA]; [|destruct (decide (a = B)) as [->|HaB]].
  - rewrite (recorded_lookup_me A B ua ub d Hne HA) in Hu'. injection Hu' as <-.
    exists ua. split; [done|].
    destruct (has_id (likes ua) B); [by auto|].
    unfold likes at 2 3. simpl. split_and!.
    + intros x Hx. apply elem_of_app. by left.
    + done.
    + intros x [Hx| ->%list_elem_of_singleton]%elem_of_app; auto.
    + done.
  - rewrite (recorded_lookup_target A B ua ub d Hne HB) in Hu'. injection Hu' as <-.
    exists ub. split; [done|].
    destruct (has_id (likers ub) A); [by auto|].
    unfold likers at 2. simpl. split_and!.
    + done.
    + intros x Hx. apply elem_of_app. by left.
    + auto.
    + done.
  - rewrite recorded_lookup_other in Hu' by done. exists u'. split_and!; auto.
Qed.

Lemma recorded_lookup_mono A B ua ub d a u :
  A ≠ B → users d !! A = Some ua → users d !! B = Some ub →
  users d !! a = Some u →
  ∃ u', users (recorded A B ua ub d) !! a = Some u' ∧
        (∀ x, x ∈ likes u → x ∈ likes u') ∧
        (∀ x, x ∈ likers u → x ∈ likers u').
Proof.
  intros Hne HA HB Hu.
  destruct (decide (a = A)) as [->|HaA]; [|destruct (decide (a = B)) as [->|HaB]].
  - rewrite (recorded_lookup_me A B ua ub d Hne HA). eexists. split; [done|].
    assert (u = ua) as -> by congruence.
    destruct (has_id (likes ua) B); [by auto|].
    unfold likes at 2. simpl. split; [|done].
    intros x Hx. apply elem_of_app. by left.
  - rewrite (recorded_lookup_target A B ua ub d Hne HB). eexists. split; [done|].
    assert (u = ub) as -> by congruence.
    destruct (has_id (likers ub) A); [by auto|].
    unfold likers at 2. simpl. split; [done|].
    intros x Hx. apply elem_of_app. by left.
  - rewrite recorded_lookup_other by done. eauto.
Qed.

Lemma consistent_recorded A B ua ub d :
  A ≠ B → users d !! A = Some ua → users d !! B = Some ub →
  consistent d → consistent (recorded A B ua ub d).
Proof.
  intros Hne HA HB (Hids & Hvalid & Hmirror & Hmatch). split_and!.
  - intros id [u' Hu']. rewrite recorded_next_oid. apply Hids.
    destruct (recorded_lookup_inv A B ua ub d id u' Hne HA HB Hu') as (u & -> & _).
    done.
  - intros id u' Hu'.
    destruct (recorded_lookup_inv A B ua ub d id u' Hne HA HB Hu')
      as (u & Hu & _ & _ & _ & ->).
    by eapply Hvalid.
  - intros a b ua' Hua' Hb.
    destruct (recorded_lookup_inv A B ua ub d a ua' Hne HA HB Hua')
      as (u & Hu & _ & _ & Hinv & _).
    destruct (Hinv b Hb) as [Hold|[-> ->]].
    + destruct (Hmirror a b u Hu Hold) as (ub0 & Hub0 & Ha).
      destruct (recorded_lookup_mono A B ua ub d b ub0 Hne HA HB Hub0)
        as (ub' & Hub' & _ & Hmono).
      exists ub'. auto.
    + rewrite (recorded_lookup_target A B ua ub d Hne HB). eexists. split; [done|].
      by apply (recorded_target_once A ub).
  - intros m Hm. rewrite recorded_matches in Hm.
    destruct (Hmatch m Hm) as (u1 & u2 & H1 & H2 & Hl1 & Hl2).
    destruct (recorded_lookup_mono A B ua ub d _ u1 Hne HA HB H1) as (u1' & ? & Hm1 & _).
    destruct (recorded_lookup_mono A B ua ub d _ u2 Hne HA HB H2) as (u2' & ? & Hm2 & _).
    exists u1', u2'. auto.
Qed.

Lemma consistent_effect d d' : consistent d → effect d d' → consistent d'.
Proof.
  intros Hc Heff.
  destruct Heff as [|doc Hl Hlb Hv|id u u' Hu Hl Hlb Hv|A B ua ub Hne HA HB
                    |A B ua ub now Hne HA HB Hmut].
  - done.
  - destruct Hc as (Hids & Hvalid & Hmirror & Hmatch).
    assert (users d !! next_oid d = None) as Hfresh.
    { destruct (users d !! next_oid d) eqn:Hn; [|done].
      assert (next_oid d < next_oid d) by (apply Hids; by rewrite Hn). lia. }
    assert (∀ a u0, users d !! a = Some u0 →
                    <[next_oid d := doc]> (users d) !! a = Some u0) as Hkeep.
    { intros a u0 Hu0. rewrite lookup_insert_ne; [done|]. congruence. }
    split_and!; simpl.
    + intros id. rewrite lookup_insert. case_decide; [lia|].
      intros Hid%Hids. lia.
    + intros id u0 Hu0. simpl in Hu0. rewrite lookup_insert in Hu0.
      case_decide; [by injection Hu0 as <-|]. by eapply Hvalid.
    + intros a b ua. rewrite lookup_insert. case_decide as Ha.
      * intros [= <-]. rewrite Hl. by intros ?%elem_of_nil.
      * intros Hua Hb. destruct (Hmirror a b ua Hua Hb) as (ub & Hub & ?).
        exists ub. auto.
    + intros m Hm. destruct (Hmatch m Hm) as (u1 & u2 & H1 & H2 & ? & ?).
      exists u1, u2. auto.
  - destruct Hc as (Hids & Hvalid & Hmirror & Hmatch).
    assert (∀ a u0, users d !! a = Some u0 →
              ∃ u0', <[id := u']> (users d) !! a = Some u0' ∧
                     likes u0' = likes u0 ∧ likers u0' = likers u0) as Hkeep.
    { intros a u0 Hu0. rewrite lookup_insert. case_decide as Ha.
      - subst a. assert (u0 = u) as -> by congruence. eauto.
      - eauto. }
    assert (∀ a u0', <[id := u']> (users d) !! a = Some u0' →
              ∃ u0, users d !! a = Some u0 ∧
                    likes u0' = likes u0 ∧ likers u0' = likers u0) as Hback.
    { intros a u0'. rewrite lookup_insert. case_decide as Ha.
      - subst a. intros [= <-]. eauto.
      - eauto. }
    split_and!; simpl.
    + intros a [u0' (u0 & Hu0 & _)%Hback]. apply Hids. by rewrite Hu0.
    + intros a u0 Hu0. simpl in Hu0. rewrite lookup_insert in Hu0.
      case_decide; [by injection Hu0 as <-|]. by eapply Hvalid.
    + intros a b ua' (ua0 & Hua0 & Hl0 & _)%Hback Hb. rewrite Hl0 in Hb.
      destruct (Hmirror a b ua0 Hua0 Hb) as (ub0 & Hub0 & Ha).
      destruct (Hkeep b ub0 Hub0) as (ub' & ? & _ & Hlb').
      exists ub'. by rewrite Hlb'.
    + intros m Hm. destruct (Hmatch m Hm) as (u1 & u2 & H1 & H2 & Hl1 & Hl2).
      destruct (Hkeep _ u1 H1) as (u1' & ? & Hl1' & _).
      destruct (Hkeep _ u2 H2) as (u2' & ? & Hl2' & _).
      exists u1', u2'. by rewrite Hl1', Hl2'.
  - by apply consistent_recorded.
  - pose proof (consistent_recorded A B ua ub d Hne HA HB Hc)
      as (Hids & Hvalid & Hmirror & Hmatch).
    rewrite recorded_next_oid in Hids. rewrite recorded_matches in Hmatch.
    split_and!; simpl.
    + intros id Hid%Hids. lia.
    + done.
    + done.
    + intros m [Hm| ->%list_elem_of_singleton]%elem_of_app; [by apply Hmatch|].
      simpl. rewrite (recorded_lookup_me A B ua ub d Hne HA),
               (recorded_lookup_target A B ua ub d Hne HB).
      do 2 eexists. split_and!; [done|done| |].
      * by apply (recorded_me_once B ua).
      * destruct (recorded_target_once A ub) as (_ & _ & -> & _). done.
Qed.

(** X16. Under normal operation (any sequence of requests served one
    at a time from an empty database by a responsive persistence layer,
    whose profile updates leave liked and likedBy as they are and keep a
    valid document valid, and none of whose likes carries a target id that
    is a condition the requester's own id meets) every stored id is below
    the id counter, every stored document passes schema validation, every
    entry of a liked array has its mirror entry in the liked user's likedBy
    array, and every Match record pairs two stored users who hold each
    other in their liked arrays. *)
Lemma normal_operation_consistent rqs :
  Forall normal_request rqs →
  ∃ d, run (quiet empty_db) rqs = quiet d ∧ consistent d.
Proof.
  intros Hall.
  assert (consistent empty_db) as Hinit.
  { split_and!; simpl.
    - intros id [u Hu]. by rewrite lookup_empty in Hu.
    - intros id u Hu. simpl in Hu. by rewrite lookup_empty in Hu.
    - intros a b ua Hua. by rewrite lookup_empty in Hua.
    - intros m Hm. by apply elem_of_nil in Hm. }
  revert Hinit. generalize empty_db.
  induction Hall as [|rq rqs Hrq _ IH]; intros d Hd; [by exists d|].
  change (run (quiet d) (rq :: rqs)) with (run (after (quiet d) rq) rqs).
  unfold after.
  destruct (serve_quiet_effect rq d Hrq ltac:(apply Hd)) as (c & d' & -> & Heff).
  simpl. apply IH. by eapply consistent_effect.
Qed.

(** In a consistent database a pair with a Match record has both likes
    recorded on both documents, and both documents are valid: a further
    like from either side changes nothing. *)
Lemma paired_is_matched d A B :
  consistent d → paired d A B →
  ∃ ua ub, users d !! A = Some ua ∧ users d !! B = Some ub ∧
           validates ua = true ∧ validates ub = true ∧
           B ∈ likes ua ∧ A ∈ likers ub ∧ A ∈ likes ub ∧ B ∈ likers ua.
Proof.
  intros (_ & Hvalid & Hmirror & Hmatch) (m & Hm & Hp).
  destruct (Hmatch m Hm) as (u1 & u2 & H1 & H2 & Hl1 & Hl2).
  destruct (Hmirror _ _ u1 H1 Hl1) as (u2' & H2' & Hb1).
  destruct (Hmirror _ _ u2 H2 Hl2) as (u1' & H1' & Hb2).
  assert (u2' = u2) as -> by congruence. assert (u1' = u1) as -> by congruence.
  pose proof (Hvalid _ _ H1). pose proof (Hvalid _ _ H2).
  unfold pairs in Hp. apply orb_true_iff in Hp.
  destruct Hp as [[<- <-]%bool_decide_eq_true|[<- <-]%bool_decide_eq_true].
  - exists u1, u2. by split_and!.
  - exists u2, u1. by split_and!.
Qed.

(** ** The auth middleware and the routes behind it *)

(** X1. Whatever the persistence layer does, the auth middleware
    answers and writes nothing; it either answers 401 itself or passes the
    id of the token's payload, and it passes only ids of stored users.  A
    missing header is answered "No token"; with a responsive persistence
    layer the token of a stored user always passes. *)
Theorem auth_verdict a w :
  db (auth a w).2 = db w ∧
  ((∃ r, (auth a w).1 = Normal (inl r) ∧ status r = 401) ∨
   (∃ id, (auth a w).1 = Normal (inr id) ∧ a = Bearer id ∧
          is_Some (users (db w) !! id))) ∧
  (a = NoHeader → (auth a w).1 = Normal (inl (status_json 401 (Message "No token")))) ∧
  (∀ id, a = Bearer id → outages w = [] → is_Some (users (db w) !! id) →
         auth a w = (Normal (inr id), w)).
Proof.
  destruct w as [d o]. split_and!.
  - pose proof (wp_auth a (λ _ d', d' = d) (λ _, False) d
                  ltac:(done) ltac:(done) o) as H.
    by destruct (auth a (mkWorld d o)) as [[r|e] w'].
  - pose proof (wp_auth a
      (λ v d', (∃ r, v = inl r ∧ status r = 401) ∨
               (∃ id, v = inr id ∧ a = Bearer id ∧ is_Some (users d !! id)))
      (λ _, False) d) as H.
    specialize (H ltac:(intros r Hr; left; eauto)
                  ltac:(intros id Ha Hid; right; eauto) o).
    destruct (auth a (mkWorld d o)) as [[v|e] w']; simpl in *; [|done].
    destruct H as [(r & -> & ?)|(id & -> & ? & ?)]; eauto.
  - by intros ->.
  - intros id -> Ho [u Hu]. simpl in *. subst o.
    unfold auth. run_handler. by rewrite Hu.
Qed.

Lemma serve_is_route rq a :
  authorization rq = Some a → ∃ handler, serve rq = route a handler.
Proof. destruct rq; intros [= <-]; simpl; eauto. Qed.

(** X2. A request to a route behind the middleware that carries no
    header, a token that does not verify, or the token of an id that is
    not stored, is answered 401 and leaves the database as it was,
    whatever the persistence layer does. *)
Theorem unauthenticated_is_refused rq a w :
  authorization rq = Some a →
  (∀ id, a = Bearer id → users (db w) !! id = None) →
  ∃ r, (serve rq w).1 = Normal r ∧ status r = 401 ∧ db (serve rq w).2 = db w.
Proof.
  intros (handler & ->)%serve_is_route Hnone. destruct w as [d o]. simpl in *.
  pose proof (wp_route a handler (λ r d', status r = 401 ∧ d' = d) (λ _, False) d) as H.
  specialize (H ltac:(done)).
  specialize (H ltac:(intros id Ha [u Hu]; by rewrite (Hnone id Ha) in Hu) o).
  destruct (route a handler (mkWorld d o)) as [[r|e] w']; simpl in *; [|done].
  destruct H. eauto.
Qed.

Lemma route_reads a handler d o :
  (∀ id, wp (handler id) (λ _ d', d' = d) (λ d', d' = d) d) →
  db (route a handler (mkWorld d o)).2 = d.
Proof.
  intros Hreads.
  apply (wp_after (route a handler) (λ d', d' = d) d o), wp_route; [done|].
  intros id _ _. apply Hreads.
Qed.

(** X3. The four listing routes (own profile, candidates, all users,
    matches) never write: whatever the token and whatever the persistence
    layer does, the database after the request is the database before. *)
Theorem listings_write_nothing w a :
  db (after w (GetSelf a)) = db w ∧
  db (after w (ListCandidates a)) = db w ∧
  db (after w (ListAll a)) = db w ∧
  db (after w (ListMatches a)) = db w.
Proof.
  destruct w as [d o]. unfold after. simpl. split_and!; apply route_reads; intros id.
  - apply wp_get_users_me_reads.
  - apply wp_get_users_reads.
  - apply wp_get_users_all_reads.
  - apply wp_get_matches_reads.
Qed.

(** ** POST /api/register *)

Lemma post_register_run b file w :
  ∃ r, (post_register b file w).1 = Normal r ∧
    ((db (post_register b file w).2 = db w ∧
      ((r = MissingFields ∧ complete b = false) ∨
       (r = server_error ∧ complete b = true))) ∨
     (∃ date,
        new_Date (default "" (rb_dob b)) = Some date ∧
        r = json (TokenUser (next_oid (db w)) (next_oid (db w))
                            (default "" (rb_firstName b))
                            ((λ filename, "/uploads/" +:+ filename) <$> file)) ∧
        db (post_register b file w).2 = registered_db b file date (db w) ∧
        complete b = true ∧
        validates (registered_doc b file date) = true ∧
        email_taken (db w) None (toLowerCase (default "" (rb_email b))) = false)).
Proof.
  destruct w as [d o]. pose proof (wp_post_register_effect b file d o) as H.
  destruct (post_register b file (mkWorld d o)) as [[r|e] w']; simpl in *; [|done].
  exists r. split; [done|].
  destruct H as [?|(date & ? & -> & ?)]; [by left|right; by exists date].
Qed.

(** X4. POST /api/register answers 400 "Missing fields" exactly when
    one of firstName, lastName, genre, email, password, dob, preference is
    missing or empty; it then has not reached the persistence layer at
    all. *)
Theorem register_requires_all_fields b file w :
  ((post_register b file w).1 = Normal MissingFields ↔ complete b = false) ∧
  (complete b = false → post_register b file w = (Normal MissingFields, w)).
Proof.
  assert (complete b = false → post_register b file w = (Normal MissingFields, w)) as H.
  { intros Hc. unfold post_register, register_try, try_catch.
    rewrite register_guard, Hc. done. }
  split; [|done]. split; [|by intros ->%H].
  destruct (post_register_run b file w)
    as (r & -> & [(_ & [[-> ?]|[-> ?]])|(date & _ & -> & _)]);
    [done|discriminate..].
Qed.



(** X6. When some stored user has the email of the body, compared in
    lower case, POST /api/register stores nothing, whatever else the body
    holds and whatever the persistence layer does: it answers 400 "Missing
    fields" or 500 "Server error" and leaves the database as it was. *)
Theorem register_refuses_taken_email b file w k u :
  users (db w) !! k = Some u →
  email u = toLowerCase (default "" (rb_email b)) →
  ∃ r, (post_register b file w).1 = Normal r ∧
       (r = MissingFields ∨ r = server_error) ∧
       db (post_register b file w).2 = db w.
Proof.
  intros Hu He.
  destruct (post_register_run b file w)
    as (r & Hr & [(Hdb & Hwhy)|(date & _ & _ & _ & _ & _ & Htaken)]).
  - exists r. split_and!; [done| |done]. destruct Hwhy as [[-> _]|[-> _]]; auto.
  - rewrite email_taken_false in Htaken. by destruct (Htaken k u Hu).
Qed.


(** ** PUT /api/users/me *)

(** X8. Whatever the persistence layer does, PUT /api/users/me writes
    at most the requester's own document: the Match records and every
    other user's document are as before, and the requester's document is
    as before or is what the update of the body makes of the old one (for
    plain fields: the old one with the fields of the body replaced).  An
    answer shows the requester's document as stored after the call. *)
Theorem update_touches_only_requester id body w :
  matches (db (put_users_me id body w).2) = matches (db w) ∧
  (∀ k, k ≠ id → users (db (put_users_me id body w).2) !! k = users (db w) !! k) ∧
  (users (db (put_users_me id body w).2) !! id = users (db w) !! id ∨
   ∃ u, users (db w) !! id = Some u ∧
        users (db (put_users_me id body w).2) !! id = Some (updated body u)) ∧
  (∀ r, (put_users_me id body w).1 = Normal r →
        r = json (SelfBody (select_self id <$>
                              users (db (put_users_me id body w).2) !! id))).
Proof.
  destruct w as [d o]. simpl.
  pose proof (wp_put_users_me_effect id body d o) as H.
  destruct (put_users_me id body (mkWorld d o)) as [[r|e] [d' o']]; simpl in *.
  - destruct H as [(Hnone & -> & ->)|(u & Hu & _ & -> & ->)].
    + split_and!; auto. intros r [= <-]. by rewrite Hnone.
    + unfold updated_db. simpl. split_and!.
      * done.
      * intros k Hk. by rewrite lookup_insert_ne.
      * right. exists u. by rewrite lookup_insert_eq.
      * intros r [= <-]. by rewrite lookup_insert_eq.
  - subst d'. split_and!; auto. done.
Qed.

Lemma apply_no_updates u : apply_updates no_updates u = u.
Proof. by destruct u. Qed.

(** X20. An empty body is a no-op: PUT /api/users/me with no field
    leaves the database as it was, whatever the persistence layer does, and
    an answer shows the requester's document as stored. *)
Theorem empty_update_changes_nothing id w :
  db (put_users_me id (Fields no_updates) w).2 = db w ∧
  (∀ r, (put_users_me id (Fields no_updates) w).1 = Normal r →
        r = json (SelfBody (select_self id <$> users (db w) !! id))).
Proof.
  destruct w as [d o]. simpl.
  pose proof (wp_put_users_me_effect id (Fields no_updates) d o) as H.
  destruct (put_users_me id (Fields no_updates) (mkWorld d o)) as [[r|e] [d' o']];
    simpl in *.
  - destruct H as [(Hnone & -> & ->)|(u & Hu & _ & -> & ->)].
    + split; [done|]. intros r [= <-]. by rewrite Hnone.
    + rewrite apply_no_updates. unfold updated_db, set_users. simpl.
      rewrite apply_no_updates, (insert_id _ _ _ Hu). split; [by destruct d|].
      intros r [= <-]. by rewrite Hu.
  - by subst d'.
Qed.

(** X21. PUT /api/users/me cannot take another user's email: when the
    email of the body, in lower case, is the stored email of a user other
    than the requester, nothing is written, whatever the persistence layer
    does, and no updated document is answered. *)
Theorem update_refuses_taken_email id ups w k u e :
  users (db w) !! k = Some u →
  k ≠ id →
  up_email ups = Some e →
  email u = toLowerCase e →
  db (put_users_me id (Fields ups) w).2 = db w ∧
  (∀ r, (put_users_me id (Fields ups) w).1 = Normal r → r = json (SelfBody None)).
Proof.
  intros Hu Hk He Hmail. destruct w as [d o]. simpl in *.
  pose proof (wp_put_users_me_effect id (Fields ups) d o) as H.
  destruct (put_users_me id (Fields ups) (mkWorld d o)) as [[r|e0] [d' o']]; simpl in *.
  - destruct H as [(Hnone & -> & ->)|(u0 & Hu0 & Htaken & _)].
    + split; [done|]. by intros r [= <-].
    + rewrite He in Htaken. specialize (Htaken ltac:(by apply bool_decide_eq_true_2)).
      rewrite email_taken_false in Htaken.
      destruct (Htaken k u Hu ltac:(congruence)). exact Hmail.
  - by subst d'.
Qed.

(** ** When a match is formed *)


(** ** Likes and listings together *)


(** ** GET /api/users/all *)

Lemma wp_get_users_all_answer U d :
  wp (get_users_all U)
     (λ r _, r = server_error ∨
             r = json (UsersBody ((λ kv, select_public kv.1 kv.2) <$>
                                    candidates_of d [U] None)))
     (λ _, False) d.
Proof.
  unfold get_users_all. apply wp_try_catch, wp_bind, wp_User_find.
  - apply wp_ret. by right.
  - intros e. apply wp_ret. by left.
Qed.

(** X14. GET /api/users/all always answers, with 500 "Server error"
    or with a listing; a listing holds at most 50 entries, never the
    requester, and each entry shows the public fields of a stored user,
    liked by the requester or not.  For a requester who has liked nobody
    and whose preference filters nothing, GET /api/users and
    GET /api/users/all answer alike when the persistence layer is
    responsive. *)
Theorem all_users_listing w U :
  (∃ r, (get_users_all U w).1 = Normal r ∧
        (r = server_error ∨
         ∃ us, r = json (UsersBody us) ∧ length us ≤ 50 ∧
               ∀ c, c ∈ us → pu_id c ≠ U ∧
                    ∃ u, users (db w) !! pu_id c = Some u ∧
                         c = select_public (pu_id c) u)) ∧
  (∀ me, outages w = [] → users (db w) !! U = Some me →
         likes me = [] → genre_filter me = None →
         get_users U w = get_users_all U w).
Proof.
  destruct w as [d o]. simpl. split.
  - pose proof (wp_get_users_all_answer U d o) as H.
    destruct (get_users_all U (mkWorld d o)) as [[r|e] w']; simpl in *; [|done].
    exists r. split; [done|]. destruct H as [->| ->]; [by left|]. right.
    eexists. split; [done|]. split; [rewrite length_fmap; apply candidates_of_length|].
    intros c (kv & -> & Hkv)%list_elem_of_fmap.
    apply candidates_of_elem in Hkv as (Hu & Hex & _). simpl. split.
    + rewrite not_elem_of_cons in Hex. by destruct Hex.
    + eauto.
  - intros me -> Hme Hl Hg. change (mkWorld d []) with (quiet d).
    rewrite (get_users_quiet U d me Hme). unfold excluded_ids. rewrite Hl, Hg.
    unfold get_users_all, User_find. by run_handler.
Qed.

(** ** POST /api/login *)

Lemma wp_post_login cast_filter bcrypt_compare mail pw d :
  wp (post_login cast_filter bcrypt_compare mail pw)
     (λ r d',
        d' = d ∧
        (r = server_error ∨
         (r = InvalidCredentials ∧
          ∀ id u, List.find (λ kv : nat * User, bool_decide (email kv.2 = cast_filter mail))
                            (map_to_list (users d)) = Some (id, u) →
                  bcrypt_compare pw (password u) = false) ∨
         ∃ id u, users d !! id = Some u ∧ email u = cast_filter mail ∧
                 bcrypt_compare pw (password u) = true ∧
                 r = json (TokenUser id id (firstName u) (avatar u))))
     (λ _, False) d.
Proof.
  unfold post_login. apply wp_try_catch. unfold login_try, User_findOne_email.
  apply wp_bind, wp_bind, wp_round_trip.
  - apply wp_bind, wp_get_db, wp_ret.
    destruct (List.find _ _) as [[id u]|] eqn:Hfind.
    + destruct (bcrypt_compare pw (password u)) eqn:Hcmp; apply wp_ret; (split; [done|]).
      * right. right. exists id, u.
        apply find_some in Hfind as [Hin He]. apply bool_decide_eq_true in He.
        apply list_elem_of_In, elem_of_map_to_list in Hin. by split_and!.
      * right. left. split; [done|]. by intros ?? [= <- <-].
    + apply wp_ret. split; [done|]. right. left. by split.
  - intros e. apply wp_ret. split; [done|]. by left.
Qed.

(** X15. Whatever mongoose looks up for the email and whatever
    bcrypt's comparison answers, POST /api/login never writes and always
    answers: 500 "Server error", 400 "Invalid credentials", or a token;
    a token carries the id, first name and avatar of a stored user whose
    email is the one looked up and whose stored password the comparison
    accepts.  With a responsive persistence layer an unknown email and a
    wrong password are answered the same 400 "Invalid credentials". *)
Theorem login_outcome cast_filter bcrypt_compare mail pw w :
  db (post_login cast_filter bcrypt_compare mail pw w).2 = db w ∧
  (∃ r, (post_login cast_filter bcrypt_compare mail pw w).1 = Normal r ∧
        (r = server_error ∨ r = InvalidCredentials ∨
         ∃ id u, users (db w) !! id = Some u ∧ email u = cast_filter mail ∧
                 bcrypt_compare pw (password u) = true ∧
                 r = json (TokenUser id id (firstName u) (avatar u)))) ∧
  (outages w = [] →
   (∀ id u, users (db w) !! id = Some u → email u = cast_filter mail →
            bcrypt_compare pw (password u) = false) →
   (post_login cast_filter bcrypt_compare mail pw w).1 = Normal InvalidCredentials).
Proof.
  destruct w as [d o]. simpl.
  pose proof (wp_post_login cast_filter bcrypt_compare mail pw d o) as H.
  split_and!.
  - destruct (post_login _ _ _ _ _) as [[r|e] w']; simpl in *; [by destruct H|done].
  - destruct (post_login _ _ _ _ _) as [[r|e] w']; simpl in *; [|done].
    exists r. split; [done|]. destruct H as [_ [?|[[? _]|?]]]; auto.
  - intros -> Hall. clear H.
    unfold post_login, login_try, User_findOne_email. run_handler.
    destruct (List.find _ _) as [[id u]|] eqn:Hfind; simpl; [|done].
    apply find_some in Hfind as [Hin He]. apply bool_decide_eq_true in He.
    apply list_elem_of_In, elem_of_map_to_list in Hin.
    by rewrite (Hall id u Hin He).
Qed.

(** ** From a listing to a like, from a like to a listing *)



End ServiceProperties.

(** * Scenarios

    The statements above at concrete requests, run on [scenario_runtime]. *)

Section ScenarioProperties.
#[local] Existing Instance scenario_runtime.

Lemma two_users_reachable : reachable clean_request two_users.
Proof.
  apply run_reachable; [apply reach_boot | by repeat constructor].
Qed.

Lemma matched_world_reachable : reachable clean_request matched_world.
Proof.
  apply run_reachable; [apply two_users_reachable | by repeat constructor].
Qed.

Lemma clean_is_any w : reachable clean_request w → reachable any_request w.
Proof. by apply reachable_mono. Qed.

(** ** POST /api/like: validation *)

Lemma like_error_leaves_state_witness :
  db (post_like 5 0 (IdString 7) (mkWorld (db two_users) [false; false; true])).2
  = db two_users.
Proof.
  assert ((post_like 5 0 (IdString 7)
             (mkWorld (db two_users) [false; false; true])).1 = Normal NotFound)
    as Hrun by (by vm_compute).
  exact (like_error_leaves_state 5 0 (IdString 7)
           (mkWorld (db two_users) [false; false; true]) NotFound Hrun
           (or_intror (or_intror eq_refl))).
Defined.

(** C7, as stated, fails.  Alice sends the target id "abc": it is
    present, it is not her own id and it references no existing user, but
    mongoose cannot cast it, [User.findById] rejects and the handler
    answers 500 "Server error", not 404 "User not found". *)
Lemma malformed_target_is_server_error :
  outages two_users = [] ∧
  is_Some (users (db two_users) !! 0) ∧
  falsy NotAnId = false ∧
  equals 0 NotAnId = false ∧
  found (db two_users) NotAnId = None ∧
  (User_findById_value NotAnId two_users).1 = Abrupt CastError ∧
  (post_like 5 0 NotAnId two_users).1 = Normal server_error ∧
  (post_like 5 0 NotAnId two_users).1 ≠ Normal NotFound.
Proof.
  split_and!.
  - by vm_compute.
  - vm_compute. eauto.
  - done.
  - done.
  - done.
  - by vm_compute.
  - by vm_compute.
  - by vm_compute.
Qed.

(** The check of line 197 compares the target id with the requester's id
    as a string: Alice sends an object holding her own id, the check lets
    it pass, [User.findById] finds her own document, and the like is
    recorded on it. *)
Lemma object_target_likes_self :
  reachable any_request (after two_users (RecordLike (Bearer 0) 5 (id_object 0))) ∧
  (post_like 5 0 (id_object 0) two_users).1 = Normal Liked ∧
  likes <$> users (db (post_like 5 0 (id_object 0) two_users).2) !! 0 = Some [0] ∧
  likers <$> users (db (post_like 5 0 (id_object 0) two_users).2) !! 0 = Some [0] ∧
  ¬ users_ok (db (after two_users (RecordLike (Bearer 0) 5 (id_object 0)))) ∧
  (post_like 6 0 (id_object 0) (post_like 5 0 (id_object 0) two_users).2).1
  = Normal (MatchFormed (mkMatch 2 0 0 6)).
Proof.
  split_and!.
  - apply reach_serve; [|done]. apply clean_is_any, two_users_reachable.
  - by vm_compute.
  - by vm_compute.
  - by vm_compute.
  - intros Hok.
    assert (∃ u, users (db (after two_users (RecordLike (Bearer 0) 5 (id_object 0))))
                   !! 0 = Some u ∧ likes u = [0])
      as (u & Hu & Hl) by (eexists; split; by vm_compute).
    destruct (Hok 0 u Hu) as (Hself & _). apply Hself. rewrite Hl.
    apply list_elem_of_here.
  - by vm_compute.
Qed.

Lemma like_validation_order_witness :
  (post_like 5 0 NoTarget two_users).1 = Normal InvalidInput ∧
  (post_like 5 0 (IdString 0) two_users).1 = Normal SelfLikeRejected ∧
  (post_like 5 0 (IdString 7) two_users).1 = Normal NotFound ∧
  (post_like 5 0 NotAnId two_users).1 = Normal server_error.
Proof.
  assert (∃ me, users (db two_users) !! 0 = Some me) as [me Hme]
    by (eexists; by vm_compute).
  assert (outages two_users = []) as Ho by (by vm_compute).
  assert (users (db two_users) !! 7 = None) as Hnone by (by vm_compute).
  split_and!.
  - exact (proj2 (proj1 (like_validation_order 5 two_users 0 NoTarget me Ho Hme))
                 eq_refl).
  - exact (proj2 (proj1 (proj2 (like_validation_order 5 two_users 0 (IdString 0)
                                  me Ho Hme))) eq_refl).
  - apply (proj1 (proj2 (proj2 (like_validation_order 5 two_users 0 (IdString 7)
                                  me Ho Hme)))).
    left. exists 7. split_and!; [reflexivity | lia | exact Hnone].
  - exact (proj2 (proj2 (proj2 (like_validation_order 5 two_users 0 NotAnId
                                  me Ho Hme))) eq_refl).
Defined.

(** ** A mutual like *)



(** The scenario of two users: the first like answers "Liked", the
    answering like forms the match, and the repeated like answers "Liked"
    again and changes nothing. *)
Example like_scenario :
  (serve (RecordLike (Bearer 0) 10 (IdString 1)) two_users).1 = Normal Liked ∧
  (serve (RecordLike (Bearer 1) 11 (IdString 0)) one_sided_world).1
    = Normal (MatchFormed (mkMatch 2 1 0 11)) ∧
  matches (db matched_world) = [mkMatch 2 1 0 11] ∧
  serve (RecordLike (Bearer 0) 12 (IdString 1)) matched_world
  = (Normal Liked, matched_world).
Proof. split_and!; by vm_compute. Qed.

(** ** Likes between matched users *)


(** The same without any profile update: the like that lost
    [target.save()] left Alice's like recorded on her document only; the
    Match record was still formed by Bob's like, and Alice's next like
    completes Bob's likedBy array. *)
Lemma like_after_half_recorded_match :
  outages half_recorded_world = [] ∧
  paired (db half_recorded_world) 0 1 ∧
  likers <$> users (db half_recorded_world) !! 1 = Some [] ∧
  (post_like 12 0 (IdString 1) half_recorded_world).1 = Normal Liked ∧
  likers <$> users (db (post_like 12 0 (IdString 1) half_recorded_world).2) !! 1
  = Some [0].
Proof.
  split_and!.
  - by vm_compute.
  - apply (bool_decide_unpack _). by vm_compute.
  - by vm_compute.
  - by vm_compute.
  - by vm_compute.
Qed.


(** ** Liking twice *)



(** ** The invariant of the relation arrays *)

(** C3, as stated, fails.  Alice registers and sends
    PUT /api/users/me with a liked array holding her own id twice; the
    update is applied as it comes, and her record then has a
    self-reference and a duplicate in liked. *)
Lemma update_breaks_relations :
  reachable any_request self_liked_world ∧
  likes <$> users (db self_liked_world) !! 0 = Some [0; 0] ∧
  ¬ users_ok (db self_liked_world).
Proof.
  split_and!.
  - apply run_reachable; [apply reach_boot | by repeat constructor].
  - by vm_compute.
  - intros Hok.
    assert (∃ u, users (db self_liked_world) !! 0 = Some u ∧ likes u = [0; 0])
      as (u & Hu & Hl) by (eexists; split; by vm_compute).
    destruct (Hok 0 u Hu) as (Hself & _). apply Hself. rewrite Hl.
    apply list_elem_of_here.
Qed.

(** An update operator does the same without assigning an array: Alice
    pushes her own id onto her liked array. *)
Lemma push_breaks_relations :
  likes <$> users (db (after two_users (UpdateProfile (Bearer 0) (push_liked 0)))) !! 0
  = Some [0] ∧
  ¬ users_ok (db (after two_users (UpdateProfile (Bearer 0) (push_liked 0)))).
Proof.
  split; [by vm_compute|].
  intros Hok.
  assert (∃ u, users (db (after two_users (UpdateProfile (Bearer 0) (push_liked 0))))
                 !! 0 = Some u ∧ likes u = [0])
    as (u & Hu & Hl) by (eexists; split; by vm_compute).
  destruct (Hok 0 u Hu) as (Hself & _). apply Hself. rewrite Hl.
  apply list_elem_of_here.
Qed.

Lemma clean_requests_keep_relations_ok_witness :
  users (db matched_world) !! 0 = Some alice_doc ∧ relations_ok 0 alice_doc.
Proof.
  assert (users (db matched_world) !! 0 = Some alice_doc) as Hdoc by (by vm_compute).
  split; [exact Hdoc|].
  apply (clean_requests_keep_relations_ok matched_world); [|exact Hdoc].
  apply matched_world_reachable.
Defined.

(** ** GET /api/users *)

Lemma candidates_exclude_self_and_liked_witness :
  ∃ cs, get_users 0 matched_world = (Normal (json (UsersBody cs)), matched_world).
Proof.
  assert (∃ me, users (db matched_world) !! 0 = Some me) as [me Hme]
    by (eexists; by vm_compute).
  assert (outages matched_world = []) as Ho by (by vm_compute).
  exact (proj1 (candidates_exclude_self_and_liked matched_world 0 me Hme) Ho).
Defined.

(** C4, as stated, fails in both directions.  Carol's preference is
    "all", not "any", and her candidates are of both genres: the filter is
    skipped.  Bob's preference is "any", and his query carries the conjunct
    genre = "any": nobody is listed although Alice and Carol are neither
    him nor liked by him. *)
Lemma any_is_not_the_open_preference :
  preference <$> users (db open_world) !! 2 = Some (Some "all") ∧
  genre_filter <$> users (db open_world) !! 2 = Some None ∧
  listed (get_users 2 open_world).1 = Some [(1, "male"); (0, "female")] ∧
  preference <$> users (db open_world) !! 1 = Some (Some "any") ∧
  genre_filter <$> users (db open_world) !! 1 = Some (Some "any") ∧
  likes <$> users (db open_world) !! 1 = Some [] ∧
  listed (get_users 1 open_world).1 = Some [].
Proof. split_and!; by vm_compute. Qed.

Lemma candidates_genre_filter_witness :
  ∃ cs, (get_users 0 matched_world).1
        = Normal (json (UsersBody ((λ kv, select_public kv.1 kv.2) <$> cs))) ∧
    ∀ g, genre_filter alice_doc = Some g →
      preference alice_doc = Some g ∧
      cs = take 50 (filter (λ kv : nat * User,
                              (kv.1 ∉ excluded_ids 0 alice_doc) ∧ genre kv.2 = g)
                           (map_to_list (users (db matched_world)))).
Proof.
  assert (∃ r, get_users 0 matched_world = (Normal r, matched_world)) as [r Hrun]
    by (eexists; by vm_compute).
  assert (users (db matched_world) !! 0 = Some alice_doc) as Hme by (by vm_compute).
  destruct (proj2 (candidates_genre_filter matched_world 0 alice_doc Hme) r _ Hrun)
    as (cs & Hr & Hg & _).
  exists cs. split; [|exact Hg].
  rewrite Hrun. simpl. by rewrite Hr.
Defined.

(** ** GET /api/matches *)

(** Alice has two matches; hers are listed newest first, Bob and Carol
    see their own one only. *)
Example matches_listing_example :
  createdAt <$> matches (db two_matches_world) = [11; 21] ∧
  listed_times (serve (ListMatches (Bearer 0)) two_matches_world).1 = Some [21; 11] ∧
  listed_times (serve (ListMatches (Bearer 1)) two_matches_world).1 = Some [11] ∧
  listed_times (serve (ListMatches (Bearer 3)) two_matches_world).1 = Some [21].
Proof. split_and!; by vm_compute. Qed.

(** ** Handlers with and without a [try] *)

(** C9 fails on the code.  Bob sends PUT /api/users/me with Alice's
    email: the unique index refuses the write and the handler's promise
    rejects, no response written.  The same happens to PUT /api/users/me,
    GET /api/users and GET /api/matches when the persistence layer drops a
    round trip after [auth]; POST /api/like and GET /api/users/all, in
    the same situation, answer 500 "Server error". *)
Theorem unguarded_handlers_reject :
  (serve (UpdateProfile (Bearer 1) (Fields (assign_email "alice@example.org")))
         two_users).1
    = Abrupt DuplicateKey ∧
  (serve (UpdateProfile (Bearer 1) (Fields no_updates)) drop_after_auth).1
    = Abrupt MongoError ∧
  (serve (ListCandidates (Bearer 1)) drop_after_auth).1 = Abrupt MongoError ∧
  (serve (ListMatches (Bearer 1)) drop_after_auth).1 = Abrupt MongoError ∧
  (serve (RecordLike (Bearer 1) 5 (IdString 0)) drop_after_auth).1
    = Normal server_error ∧
  (serve (ListAll (Bearer 1)) drop_after_auth).1 = Normal server_error.
Proof. split_and!; by vm_compute. Qed.

(** ** The auth middleware *)

Lemma unauthenticated_is_refused_witness :
  ∃ r, (serve (RecordLike (Bearer 7) 5 (IdString 1)) matched_world).1 = Normal r ∧
       status r = 401 ∧
       db (serve (RecordLike (Bearer 7) 5 (IdString 1)) matched_world).2
       = db matched_world.
Proof.
  apply (unauthenticated_is_refused (RecordLike (Bearer 7) 5 (IdString 1))
           (Bearer 7) matched_world eq_refl).
  intros id [= <-]. by vm_compute.
Defined.

(** ** POST /api/register *)

Lemma register_refuses_taken_email_witness :
  ∃ r, (post_register (mkRegisterBody (Some "Al") (Some "Ames") (Some "female")
                         (Some "ALICE@Example.ORG") (Some "pw") (Some "1991-01-01")
                         (Some "all")) None two_users).1 = Normal r ∧
       (r = MissingFields ∨ r = server_error) ∧
       db (post_register (mkRegisterBody (Some "Al") (Some "Ames") (Some "female")
                            (Some "ALICE@Example.ORG") (Some "pw") (Some "1991-01-01")
                            (Some "all")) None two_users).2 = db two_users.
Proof.
  assert (∃ u, users (db two_users) !! 0 = Some u ∧ email u = "alice@example.org")
    as (u & Hu & He) by (eexists; split; by vm_compute).
  apply (register_refuses_taken_email _ None two_users 0 u Hu).
  rewrite He. by vm_compute.
Defined.


(** ** When a match is formed *)


(** ** Documents that do not validate *)


(** ** Likes and listings together *)




(** ** Invariants, on an example *)

Lemma normal_operation_consistent_witness :
  ∃ d, run (quiet empty_db)
           [Register alice None; Register bob None;
            RecordLike (Bearer 0) 10 (IdString 1); RecordLike (Bearer 1) 11 (IdString 0)]
       = quiet d ∧ consistent d.
Proof. apply normal_operation_consistent. by repeat constructor. Defined.

Lemma matches_stay_well_formed_witness : matches_ok (db matched_then_cleared).
Proof.
  apply matches_stay_well_formed.
  apply run_reachable; [|by repeat constructor].
  eapply reachable_mono; [|apply matched_world_reachable].
  by intros [].
Defined.

Lemma emails_stay_unique_witness : emails_unique (db matched_then_cleared).
Proof.
  apply emails_stay_unique.
  apply run_reachable; [|by repeat constructor].
  apply clean_is_any, matched_world_reachable.
Defined.

(** ** PUT /api/users/me *)

Lemma update_refuses_taken_email_witness :
  db (put_users_me 1 (Fields (assign_email "ALICE@example.org")) two_users).2
  = db two_users.
Proof.
  assert (∃ u, users (db two_users) !! 0 = Some u ∧ email u = "alice@example.org")
    as (u & Hu & Hmail) by (eexists; split; by vm_compute).
  assert (toLowerCase "ALICE@example.org" = "alice@example.org") as Hl
    by (by vm_compute).
  apply (update_refuses_taken_email 1 (assign_email "ALICE@example.org")
           two_users 0 u "ALICE@example.org" Hu ltac:(lia) eq_refl).
  by rewrite Hmail, Hl.
Defined.

End ScenarioProperties.
